(** * PyFOPPL: distribution catalogue, shape inference and the Clojure renderer

    A shallow embedding of [foppl/distributions.py] and
    [pyppl/ppl_clojure_repr.py], followed by the properties established
    about them. *)

From Stdlib Require Import String Ascii List ZArith Bool Arith Lia.
From Stdlib Require Import Permutation DecimalString.
Import ListNotations.
Set Warnings "-register-all".
Open Scope list_scope.
Open Scope string_scope.

(* ===================================================================== *)
(** ** Python prelude *)
(* ===================================================================== *)

Module Py.

(** The exceptions the embedded code can raise. *)
Inductive exn : Type :=
| ValueError      (* max() of an empty sequence *)
| IndexError      (* subscript out of range *)
| TypeError       (* len() of an object without a length *)
| InternalError.  (* a node no visit method exists for *)

(** A call either returns a value or raises. *)
Inductive outcome (A : Type) : Type :=
| Returns (a : A)
| Raises (e : exn).
Arguments Returns {A} a.
Arguments Raises {A} e.

Definition obind {A B} (c : outcome A) (k : A -> outcome B) : outcome B :=
  match c with
  | Returns a => k a
  | Raises e => Raises e
  end.

(** Python values as far as the code looks at them: integers, lists, and
    every other value, which is kept as the text [repr] gives for it. *)
Inductive py_value : Type :=
| PyInt (z : Z)
| PyAtom (repr : string)
| PyList (items : list py_value).

(** [type(v) is list] *)
Definition is_list (v : py_value) : bool :=
  match v with
  | PyList _ => true
  | _ => false
  end.

(** [len(v)] *)
Definition len (v : py_value) : outcome nat :=
  match v with
  | PyList items => Returns (length items)
  | _ => Raises TypeError
  end.

(** [max(ns)] on a list of lengths: raises on the empty list. *)
Definition max (ns : list nat) : outcome nat :=
  match ns with
  | [] => Raises ValueError
  | n :: rest => Returns (fold_left Nat.max rest n)
  end.

(** [[f(x) for x in xs]] where [f] may raise. *)
Section Comprehension.
Context {A B : Type} (f : A -> outcome B).
Fixpoint comprehension (xs : list A) : outcome (list B) :=
  match xs with
  | [] => Returns []
  | x :: rest =>
      obind (f x) (fun y =>
      obind (comprehension rest) (fun ys => Returns (y :: ys)))
  end.
End Comprehension.

(** [sep.join(parts)] *)
Fixpoint join (sep : string) (parts : list string) : string :=
  match parts with
  | [] => ""
  | [p] => p
  | p :: rest => p ++ sep ++ join sep rest
  end.

Definition newline : ascii := "010"%char.
Definition nl : string := String newline "".

(** [s.replace('\n', by)] *)
Fixpoint replace_newline (by_ : string) (s : string) : string :=
  match s with
  | EmptyString => EmptyString
  | String c rest =>
      if Ascii.eqb c newline
      then by_ ++ replace_newline by_ rest
      else String c (replace_newline by_ rest)
  end.

(** ['\n' in s] *)
Fixpoint contains_newline (s : string) : bool :=
  match s with
  | EmptyString => false
  | String c rest => Ascii.eqb c newline || contains_newline rest
  end.

(** [' ' * n] *)
Fixpoint spaces (n : nat) : string :=
  match n with
  | O => ""
  | S k => String " "%char (spaces k)
  end.

(** [c.lower()] and [s.lower()], on ASCII letters (the catalogue's names
    are ASCII). *)
Definition lower_ascii (c : ascii) : ascii :=
  let n := nat_of_ascii c in
  if Nat.leb 65 n && Nat.leb n 90 then ascii_of_nat (n + 32) else c.

Fixpoint lower (s : string) : string :=
  match s with
  | EmptyString => EmptyString
  | String c rest => String (lower_ascii c) (lower rest)
  end.

(** [repr] of a value; an integer prints in decimal. *)
Fixpoint repr (v : py_value) : string :=
  match v with
  | PyInt z => NilZero.string_of_int (Z.to_int z)
  | PyAtom text => text
  | PyList items => "[" ++ join ", " (map repr items) ++ "]"
  end.

(** ["{}".format(x)] where [x] is a string or [None]. *)
Definition fmt (x : option string) : string :=
  match x with
  | Some s => s
  | None => "None"
  end.

End Py.
Import Py.

(* ===================================================================== *)
(** ** foppl/code_types.py and foppl/code_objects.py (as far as used) *)
(* ===================================================================== *)

Module CodeTypes.

(** Modelled from the spec: [code_types.py] is not among the sources.
    The type model is the spec's tagged variant ([AnyType],
    [IntegerType], [FloatType], a sequence type with an element type and
    a size that is a non-negative integer or unknown).  The code tells
    [SequenceType] from [ListType] ([isinstance] against either, and it
    builds [ListType]s), so both classes are kept, [ListType] being a
    [SequenceType].  [IntegerType_class] is the class object
    [IntegerType] itself, which [CategoricalDistribution] passes where
    the other methods pass the instance [IntegerType()]. *)
Inductive code_type : Type :=
| AnyType
| IntegerType
| FloatType
| SequenceType (item_type : code_type) (size : option nat)
| ListType (item_type : code_type) (size : option nat)
| IntegerType_class.

(** [isinstance(t, SequenceType)] *)
Definition isinstance_SequenceType (t : code_type) : bool :=
  match t with
  | SequenceType _ _ | ListType _ _ => true
  | _ => false
  end.

(** [isinstance(t, ListType)] *)
Definition isinstance_ListType (t : code_type) : bool :=
  match t with
  | ListType _ _ => true
  | _ => false
  end.

(** [t.size] and [t.item_type], read only behind an [isinstance] test. *)
Definition size (t : code_type) : option nat :=
  match t with
  | SequenceType _ n | ListType _ n => n
  | _ => None
  end.

Definition item_type (t : code_type) : code_type :=
  match t with
  | SequenceType i _ | ListType i _ => i
  | _ => AnyType
  end.

End CodeTypes.
Import CodeTypes.

Module CodeObjects.

(** Modelled from the spec: [code_objects.py] is not among the sources.
    The four shape-carrying argument representations of the spec: a
    literal constant ([CodeValue]), a vector-construction node
    ([CodeVector]), a reference to a named data table
    ([CodeDataSymbol], holding [node.data]) and any other expression;
    each carries its [code_type]. *)
Inductive CodeObject : Type :=
| CodeValue (value : py_value) (ty : code_type)
| CodeVector (items : list CodeObject) (ty : code_type)
| CodeDataSymbol (data : list py_value) (ty : code_type)
| CodeOther (ty : code_type).

Definition code_type_of (arg : CodeObject) : code_type :=
  match arg with
  | CodeValue _ ty | CodeVector _ ty | CodeDataSymbol _ ty | CodeOther ty => ty
  end.

(** Modelled from the spec: [len] of a code object (the classes'
    [__len__] is not among the sources): a vector node has as many
    elements as items, a literal as many as its list value, a data
    table as many as rows. *)
Definition code_len (arg : CodeObject) : outcome nat :=
  match arg with
  | CodeValue v _ => len v
  | CodeVector items _ => Returns (length items)
  | CodeDataSymbol data _ => Returns (length data)
  | CodeOther _ => Raises TypeError
  end.

End CodeObjects.
Import CodeObjects.

(* ===================================================================== *)
(** ** foppl/distributions.py *)
(* ===================================================================== *)

Module Distributions.

Inductive DistributionType : Type :=
| CONTINUOUS
| DISCRETE.

(** The class of a descriptor object decides which methods it has. *)
Inductive dist_class : Type :=
| DistributionCls
| BinomialDistributionCls
| CategoricalDistributionCls.

Record Distribution : Type := mkDistribution {
  klass : dist_class;
  name : string;
  foppl_name : string;
  python_name : string;
  distribution_type : DistributionType;
  params : list string;
  has_transform_flag : bool;
  _vector_sample : bool;
  transform_forward : option string;
  transform_inverse : option string;
  transform_distribution : option string
}.

(** The keyword-only arguments of [__init__], with their defaults. *)
Record keywords : Type := mkKeywords {
  kw_has_transform_flag : bool;
  kw_vector_sample : bool;
  kw_transform_forward : option string;
  kw_transform_inverse : option string;
  kw_transform_distribution : option string;
  kw_transforms : option (string * string * string);
  kw_foppl_name : option string;
  kw_python_name : option string
}.

Definition no_keywords : keywords :=
  mkKeywords false false None None None None None None.

Definition has_transform_flag_ (b : bool) (k : keywords) : keywords :=
  mkKeywords b (kw_vector_sample k) (kw_transform_forward k)
    (kw_transform_inverse k) (kw_transform_distribution k)
    (kw_transforms k) (kw_foppl_name k) (kw_python_name k).

Definition vector_sample_ (b : bool) (k : keywords) : keywords :=
  mkKeywords (kw_has_transform_flag k) b (kw_transform_forward k)
    (kw_transform_inverse k) (kw_transform_distribution k)
    (kw_transforms k) (kw_foppl_name k) (kw_python_name k).

Definition transforms_ (t : string * string * string) (k : keywords) : keywords :=
  mkKeywords (kw_has_transform_flag k) (kw_vector_sample k)
    (kw_transform_forward k) (kw_transform_inverse k)
    (kw_transform_distribution k) (Some t) (kw_foppl_name k)
    (kw_python_name k).

Definition foppl_name_ (s : string) (k : keywords) : keywords :=
  mkKeywords (kw_has_transform_flag k) (kw_vector_sample k)
    (kw_transform_forward k) (kw_transform_inverse k)
    (kw_transform_distribution k) (kw_transforms k) (Some s)
    (kw_python_name k).

(** [x if given is None else given] *)
Definition or_default {A} (given : option A) (x : option A) : option A :=
  match given with
  | None => x
  | Some _ => given
  end.

(** [Distribution.__init__] *)
Definition init (cls : dist_class) (name : string)
    (distributions_type : option DistributionType)
    (params : option (list string)) (kw : keywords) : Distribution :=
  let '(fd, inv, dist) :=
    match kw_transforms kw with
    | Some (fd, inv, dist) =>
        (or_default (kw_transform_forward kw) (Some fd),
         or_default (kw_transform_inverse kw) (Some inv),
         or_default (kw_transform_distribution kw) (Some dist))
    | None =>
        (kw_transform_forward kw, kw_transform_inverse kw,
         kw_transform_distribution kw)
    end in
  {| klass := cls;
     name := name;
     foppl_name := match kw_foppl_name kw with
                   | None => lower name
                   | Some s => s
                   end;
     python_name := match kw_python_name kw with
                    | None => name
                    | Some s => s
                    end;
     distribution_type := match distributions_type with
                          | None => CONTINUOUS
                          | Some t => t
                          end;
     params := match params with
               | None => []
               | Some ps => ps
               end;
     has_transform_flag := kw_has_transform_flag kw;
     _vector_sample := kw_vector_sample kw;
     transform_forward := fd;
     transform_inverse := inv;
     transform_distribution := dist |}.

Definition check_arguments (self : Distribution) (args : list string) : bool :=
  true.

Definition create_code (self : Distribution) (args : list string) : string :=
  "dist." ++ python_name self ++ "(" ++ join ", " args ++ ")".

Definition get_sample_size (self : Distribution) (args : list code_type) : nat :=
  1.

Definition get_parameter_count (self : Distribution) : nat :=
  length (params self).

Definition is_continuous (self : Distribution) : bool :=
  match distribution_type self with CONTINUOUS => true | DISCRETE => false end.

Definition is_discrete (self : Distribution) : bool :=
  match distribution_type self with DISCRETE => true | CONTINUOUS => false end.

Definition get_transformations (self : Distribution)
  : option string * option string * option string :=
  (transform_forward self, transform_inverse self, transform_distribution self).

(** [Distribution.get_sample_type] *)
Definition Distribution_get_sample_type (self : Distribution)
    (args : list code_type) : code_type :=
  let result :=
    match distribution_type self with
    | CONTINUOUS => FloatType
    | DISCRETE => IntegerType
    end in
  if _vector_sample self && Nat.ltb 0 (length args) then
    match args with
    | arg0 :: _ =>
        if isinstance_SequenceType arg0
        then ListType result (size arg0)
        else result
    | [] => result
    end
  else result.

(** [BinomialDistribution.get_sample_type]: the local [result] is
    assigned and not used; the method returns [IntegerType()]. *)
Definition BinomialDistribution_get_sample_type (self : Distribution)
    (args : list code_type) : code_type :=
  let result :=
    if _vector_sample self && Nat.leb 2 (length args) then
      match args with
      | _ :: arg1 :: _ =>
          if isinstance_SequenceType arg1
          then Some (ListType IntegerType (size arg1))
          else None
      | _ => None
      end
    else None in
  IntegerType.

(** [CategoricalDistribution.get_sample_type] *)
Definition CategoricalDistribution_get_sample_type (self : Distribution)
    (args : list code_type) : code_type :=
  match args with
  | [arg] =>
      if isinstance_ListType arg && isinstance_ListType (item_type arg)
      then ListType IntegerType_class (size arg)
      else if isinstance_SequenceType arg
      then IntegerType
      else AnyType
  | _ => AnyType
  end.

(** Method lookup through the class of [self]. *)
Definition get_sample_type (self : Distribution) (args : list code_type)
  : code_type :=
  match klass self with
  | DistributionCls => Distribution_get_sample_type self args
  | BinomialDistributionCls => BinomialDistribution_get_sample_type self args
  | CategoricalDistributionCls => CategoricalDistribution_get_sample_type self args
  end.

(** The lambda [_is_vector] of [_get_support_size]. *)
Definition _is_vector (v : CodeObject) : bool :=
  match v with
  | CodeVector _ _ => true
  | CodeValue value _ => is_list value
  | _ => false
  end.

(** The last two branches of [_get_support_size]: the declared type. *)
Definition size_of_code_type (t : code_type) : option nat :=
  if isinstance_SequenceType t then
    if isinstance_SequenceType (item_type t)
    then size (item_type t)
    else size t
  else None.

(** The first branch pair, shared by literals and data tables. *)
Definition size_of_rows (rows : list py_value) : outcome (option nat) :=
  if forallb is_list rows then
    obind (comprehension len rows) (fun lens =>
    obind (max lens) (fun m => Returns (Some m)))
  else Returns (Some (length rows)).

(** [Distribution._get_support_size] *)
Definition _get_support_size (arg : CodeObject) : outcome (option nat) :=
  match arg with
  | CodeValue (PyList value) _ => size_of_rows value
  | CodeVector ((_ :: _) as items) _ =>
      if forallb _is_vector items then
        obind (comprehension code_len items) (fun lens =>
        obind (max lens) (fun m => Returns (Some m)))
      else Returns (Some (length items))
  | CodeDataSymbol ((_ :: _) as data) _ => size_of_rows data
  | _ => Returns (size_of_code_type (code_type_of arg))
  end.

(** [args[i]] *)
Definition subscript {A} (args : list A) (i : nat) : outcome A :=
  match nth_error args i with
  | Some a => Returns a
  | None => Raises IndexError
  end.

(** [get_support_size], overridden in [BinomialDistribution]. *)
Definition get_support_size (self : Distribution) (args : list CodeObject)
  : outcome (option nat) :=
  match klass self with
  | BinomialDistributionCls => obind (subscript args 1) _get_support_size
  | _ => obind (subscript args 0) _get_support_size
  end.

(** The catalogue, in the order the source lists it.  The source holds
    it in a set, whose iteration order is not fixed: what is proved
    about a loop over it is proved for every permutation. *)
Definition distributions : list Distribution := [
  init DistributionCls "Bernoulli" (Some DISCRETE) (Some ["probs"]) no_keywords;
  init DistributionCls "Beta" (Some CONTINUOUS)
    (Some ["concentration0"; "concentration1"]) no_keywords;
  init BinomialDistributionCls "Binomial" (Some CONTINUOUS)
    (Some ["total_count"; "probs"]) no_keywords;
  init CategoricalDistributionCls "Categorical" (Some DISCRETE)
    (Some ["probs"]) no_keywords;
  init DistributionCls "Cauchy" (Some CONTINUOUS) (Some ["loc"; "gamma"]) no_keywords;
  init DistributionCls "Dirichlet" (Some CONTINUOUS) (Some ["concentration0"])
    (vector_sample_ true no_keywords);
  init DistributionCls "Discrete" (Some DISCRETE) None no_keywords;
  init DistributionCls "Exponential" (Some CONTINUOUS) (Some ["rate"])
    (has_transform_flag_ true no_keywords);
  init DistributionCls "Gamma" (Some CONTINUOUS)
    (Some ["concentration0"; "concentration1"])
    (transforms_ ("bijector.Log", "bijector.Exp", "LogGamma")
       (has_transform_flag_ true no_keywords));
  init DistributionCls "HalfCauchy" (Some CONTINUOUS) (Some ["loc"; "gamma"])
    (foppl_name_ "half_cauchy" no_keywords);
  init DistributionCls "LogGamma" (Some CONTINUOUS)
    (Some ["concentration0"; "concentration1"])
    (foppl_name_ "" (has_transform_flag_ true no_keywords));
  init DistributionCls "LogNormal" (Some CONTINUOUS) (Some ["loc"; "scale"])
    (foppl_name_ "log_normal" no_keywords);
  init DistributionCls "Multinomial" (Some DISCRETE)
    (Some ["total_count"; "probs"]) no_keywords;
  init DistributionCls "MultivariateNormal" (Some CONTINUOUS)
    (Some ["loc"; "covariance_matrix"])
    (vector_sample_ true (foppl_name_ "mvn" no_keywords));
  init DistributionCls "Normal" (Some CONTINUOUS) (Some ["loc"; "scale"]) no_keywords;
  init DistributionCls "Poisson" (Some DISCRETE) (Some ["rate"]) no_keywords;
  init DistributionCls "Uniform" (Some CONTINUOUS) (Some ["low"; "high"]) no_keywords
].

(** The test of the loop in [get_distribution_for_name]. *)
Definition answers_to (n : string) (dist : Distribution) : bool :=
  String.eqb (name dist) n || String.eqb (python_name dist) n
  || String.eqb (foppl_name dist) n.

(** [get_distribution_for_name], over the catalogue in iteration order
    [ds]. *)
Fixpoint get_distribution_for_name_in (ds : list Distribution) (n : string)
  : option Distribution :=
  match ds with
  | [] => None
  | dist :: rest =>
      if answers_to n dist then Some dist
      else get_distribution_for_name_in rest n
  end.

(** [distributions_map]: source alias to runtime name; its filter tests
    [d.name], which is empty for no descriptor of the catalogue. *)
Definition distributions_map_in (ds : list Distribution)
  : list (string * string) :=
  map (fun d => (foppl_name d, python_name d))
      (filter (fun d => negb (String.eqb (name d) "")) ds).

(** [foppl_distributions_map]: the descriptors by source alias, those
    with an empty alias left out. *)
Definition foppl_distributions_map_in (ds : list Distribution)
  : list (string * Distribution) :=
  map (fun d => (foppl_name d, d))
      (filter (fun d => negb (String.eqb (foppl_name d) "")) ds).

(** [get_result_type] *)
Definition get_result_type_in (ds : list Distribution) (n : string)
    (args : list code_type) : code_type :=
  match get_distribution_for_name_in ds n with
  | Some dist => get_sample_type dist args
  | None => AnyType
  end.

End Distributions.
Import Distributions.

(* ===================================================================== *)
(** ** pyppl/ppl_ast.py (as far as used) *)
(* ===================================================================== *)

Module PplAst.

(** The parameter list of a function node is a Python list object that
    the renderer reaches through [node.parameters]; it lives in a store
    of list objects, and the node holds a reference to it. *)
Definition ref : Type := nat.
Definition store : Type := ref -> list string.

(** [ps.append(x)] on the list object behind [r]. *)
Definition append (r : ref) (x : string) (h : store) : store :=
  fun r' => if Nat.eqb r' r then (h r ++ [x])%list else h r'.

(** A binding target: a string, a tuple of strings, or another object
    (kept as its [repr]). *)
Inductive target : Type :=
| NameStr (s : string)
| NameTuple (names : list string)
| NameOther (repr : string).

(** Modelled from the spec: [ppl_ast.py] is not among the sources.  One
    variant per syntactic construct of the spec's ASTNode, with the
    fields the renderer reads.  A field the renderer tests against
    [None] is an [option].  A keyword argument of a call is formatted,
    not visited: its value is kept as the text [str] gives for it.
    [AstOther] stands for a node of any class the renderer has no
    [visit_] method for. *)
Inductive AstNode : Type :=
| AstAttribute (base : AstNode) (attr : string)
| AstBinary (left : AstNode) (op : string) (right : AstNode)
| AstBody (items : list AstNode)
| AstBreak
| AstCall (function : AstNode) (args : list AstNode)
          (keyword_args : list (string * string))
| AstCompare (left : AstNode) (op : string) (right : AstNode)
             (second_op : option string) (second_right : option AstNode)
| AstDef (name : target) (value : AstNode)
| AstFor (tgt : target) (source : AstNode) (body : AstNode)
| AstFunction (parameters : ref) (vararg : option string) (body : AstNode)
| AstIf (test : AstNode) (if_node : AstNode) (else_node : option AstNode)
| AstImport (module_name : string) (imported_names : option (list string))
            (alias : option string)
| AstLet (targets : list target) (sources : list AstNode) (body : AstNode)
| AstListFor (tgt : target) (source : AstNode) (expr : AstNode)
| AstObserve (dist : AstNode) (value : AstNode)
| AstReturn (value : AstNode)
| AstSample (dist : AstNode)
| AstSlice (base : AstNode) (start : option AstNode) (stop : option AstNode)
| AstSubscript (base : AstNode) (index : AstNode)
| AstSymbol (name : string)
| AstUnary (op : string) (item : AstNode)
| AstValue (value : py_value)
| AstValueVector (items : list py_value)
| AstVector (items : list AstNode)
| AstWhile (test : AstNode) (body : AstNode)
| AstOther (class_name : string).

(** Modelled from the spec: [AstSlice.start_as_int], the lower bound as
    an integer when it is an integer literal. *)
Definition start_as_int (start : option AstNode) : option Z :=
  match start with
  | Some (AstValue (PyInt z)) => Some z
  | _ => None
  end.

End PplAst.
Import PplAst.

(* ===================================================================== *)
(** ** pyppl/ppl_clojure_repr.py *)
(* ===================================================================== *)

Module ClojureRepr.

(** A method runs on the store of list objects, and returns or raises. *)
Definition M (A : Type) : Type := store -> store * outcome A.

Definition ret {A} (a : A) : M A := fun h => (h, Returns a).

Definition raise {A} (e : exn) : M A := fun h => (h, Raises e).

Definition bind {A B} (c : M A) (k : A -> M B) : M B :=
  fun h =>
    match c h with
    | (h', Returns a) => k a h'
    | (h', Raises e) => (h', Raises e)
    end.

Definition lift {A} (c : outcome A) : M A := fun h => (h, c).

Definition modify (f : store -> store) : M unit := fun h => (f h, Returns tt).

Definition read (r : ref) : M (list string) := fun h => (h, Returns (h r)).

Notation "x <- c ;; k" := (bind c (fun x => k))
  (at level 61, c at next level, right associativity).
Notation "c ;;; k" := (bind c (fun _ => k))
  (at level 61, right associativity).

(** [[f(x) for x in xs]] where [f] is a method. *)
Section ForEach.
Context {A B : Type} (f : A -> M B).
Fixpoint for_each (xs : list A) : M (list B) :=
  match xs with
  | [] => ret []
  | x :: rest => y <- f x ;; ys <- for_each rest ;; ret (y :: ys)
  end.
End ForEach.

(** [[f(x, y) for x, y in zip(xs, ys)]] *)
Section ForEachZip.
Context {A B C : Type} (f : A -> B -> M C).
Fixpoint for_each_zip (xs : list A) (ys : list B) {struct ys} : M (list C) :=
  match ys, xs with
  | y :: ys', x :: xs' =>
      z <- f x y ;; zs <- for_each_zip xs' ys' ;; ret (z :: zs)
  | _, _ => ret []
  end.
End ForEachZip.

Definition visit_name (name : target) : string :=
  match name with
  | NameStr s => s
  | NameTuple names => "[" ++ join ", " names ++ "]"
  | NameOther text => text
  end.

Definition visit_import (module_name : string)
    (imported_names : option (list string)) (alias : option string)
  : outcome string :=
  match alias with
  | Some a =>
      obind
        match imported_names with
        | None => Returns (":as " ++ a)
        | Some names =>
            obind (subscript names 0) (fun first =>
            Returns ("[" ++ first ++ " :as " ++ a ++ "]"))
        end
        (fun s => Returns ("(require '" ++ module_name ++ " " ++ s ++ ")"))
  | None =>
      match imported_names with
      | Some names =>
          match names with
          | [first] =>
              if String.eqb first "*"
              then Returns ("(use '" ++ module_name ++ ")")
              else Returns ("(require '" ++ module_name ++ " :refer ["
                            ++ join " " names ++ "])")
          | _ => Returns ("(require '" ++ module_name ++ " :refer ["
                          ++ join " " names ++ "])")
          end
      | None => Returns ("(require '" ++ module_name ++ ")")
      end
  end.

Definition visit_symbol (name : string) : string := name.

(** [repr(node)].  Modelled from the spec: the [__repr__] of the value
    node is in [ppl_ast.py]; the node "embeds a literal", and prints as
    that literal. *)
Definition visit_value (value : py_value) : string := repr value.

Definition visit_value_vector (items : list py_value) : string :=
  "[" ++ join " " (map repr items) ++ "]".

Definition visit_break : string := "(break)".

(** The methods that call [self.visit]; [visit] is the dispatch they
    call back into. *)
Section Methods.

Variable visit : AstNode -> M string.

(** [self.visit(node)] on a field that may be [None].  Modelled from
    the spec and from the tests the methods make on the result: the
    [visit] of [ppl_ast.py] hands [None] back for [None]. *)
Definition visit_optional (node : option AstNode) : M (option string) :=
  match node with
  | None => ret None
  | Some n => s <- visit n ;; ret (Some s)
  end.

Definition visit_indent (node : AstNode) (indent : nat) : M string :=
  result <- visit node ;;
  ret (replace_newline (nl ++ spaces indent) result).

(** [visit_indent] on a field that may be [None]. *)
Definition visit_indent_optional (node : option AstNode) (indent : nat)
  : M (option string) :=
  match node with
  | None => ret None
  | Some n => s <- visit_indent n indent ;; ret (Some s)
  end.

Definition visit_attribute (base : AstNode) (attr : string) : M string :=
  base <- visit base ;;
  ret ("(. " ++ base ++ " " ++ attr ++ ")").

Definition visit_binary (left : AstNode) (op : string) (right : AstNode)
  : M string :=
  left <- visit left ;;
  right <- visit right ;;
  ret ("(" ++ op ++ " " ++ left ++ " " ++ right ++ ")").

Definition visit_body (items : list AstNode) : M string :=
  items <- for_each (fun item => visit_indent item 2) items ;;
  ret ("(do" ++ nl ++ "  " ++ join (nl ++ "  ") items ++ ")").

Definition visit_call (function : AstNode) (args : list AstNode)
    (keyword_args : list (string * string)) : M string :=
  function <- visit function ;;
  args <- for_each visit args ;;
  let args :=
    if Nat.ltb 0 (length keyword_args)
    then List.app args
           (map (fun kv => ":" ++ fst kv ++ " " ++ snd kv) keyword_args)
    else args in
  ret ("(" ++ function ++ " " ++ join " " args ++ ")").

Definition visit_compare (left : AstNode) (op : string) (right : AstNode)
    (second_op : option string) (second_right : option AstNode) : M string :=
  left <- visit left ;;
  right <- visit right ;;
  match second_right with
  | Some second_right =>
      third <- visit second_right ;;
      if match second_op with
         | Some op2 => String.eqb op op2
         | None => false
         end
      then ret ("(" ++ op ++ " " ++ left ++ " " ++ right ++ " " ++ third ++ ")")
      else ret ("(and (" ++ op ++ " " ++ left ++ " " ++ right ++ ") ("
                ++ fmt second_op ++ " " ++ right ++ " " ++ third ++ "))")
  | None => ret ("(" ++ op ++ " " ++ left ++ " " ++ right ++ ")")
  end.

Definition visit_def (name : target) (value : AstNode) : M string :=
  let name := visit_name name in
  value <- visit_indent value 2 ;;
  if negb (contains_newline value)
  then ret ("(def " ++ name ++ " " ++ value ++ ")")
  else ret ("(def " ++ name ++ nl ++ "  " ++ value ++ ")").

(** The format string has two fields for three arguments: the third,
    [body], is rendered and left out. *)
Definition visit_for (tgt : target) (source body : AstNode) : M string :=
  source <- visit source ;;
  body <- visit_indent body 2 ;;
  ret ("(doseq [" ++ visit_name tgt ++ "]" ++ nl ++ "  " ++ source ++ ")").

(** [params] is the list object of the node, not a copy of it. *)
Definition visit_function (parameters : ref) (vararg : option string)
    (body : AstNode) : M string :=
  let params := parameters in
  match vararg with
  | Some v => modify (append params ("& " ++ v))
  | None => ret tt
  end ;;;
  body <- visit_indent body 2 ;;
  params <- read params ;;
  ret ("(fn [" ++ join " " params ++ "]" ++ nl ++ "  " ++ body ++ ")").

Definition visit_if (test if_node : AstNode) (else_node : option AstNode)
  : M string :=
  test <- visit test ;;
  body <- visit_indent if_node 2 ;;
  else_body <- visit_indent_optional else_node 2 ;;
  match else_body with
  | Some else_body =>
      ret ("(if " ++ test ++ nl ++ "  " ++ body ++ nl ++ "  " ++ else_body ++ ")")
  | None => ret ("(if " ++ test ++ nl ++ "  " ++ body ++ ")")
  end.

Definition visit_let (targets : list target) (sources : list AstNode)
    (body : AstNode) : M string :=
  bindings <- for_each_zip
                (fun tgt source => s <- visit_indent source 6 ;;
                                   ret (visit_name tgt ++ " " ++ s))
                targets sources ;;
  body <- visit_indent body 2 ;;
  ret ("(let [" ++ join (nl ++ "      ") bindings ++ "]" ++ nl ++ "  "
       ++ body ++ ")").

(** Two fields for three arguments here too. *)
Definition visit_list_for (tgt : target) (source expr : AstNode) : M string :=
  source <- visit source ;;
  body <- visit_indent expr 2 ;;
  ret ("(for " ++ visit_name tgt ++ nl ++ "  " ++ source ++ ")").

Definition visit_observe (dist value : AstNode) : M string :=
  dist <- visit dist ;;
  value <- visit value ;;
  ret ("(observe " ++ dist ++ " " ++ value ++ ")").

Definition visit_return (value : AstNode) : M string :=
  value <- visit value ;;
  ret ("(return " ++ value ++ ")").

Definition visit_sample (dist : AstNode) : M string :=
  dist <- visit dist ;;
  ret ("(sample " ++ dist ++ ")").

Definition visit_slice (base : AstNode) (start stop : option AstNode)
  : M string :=
  sequence <- visit base ;;
  start_ <- visit_optional start ;;
  stop_ <- visit_optional stop ;;
  match stop_ with
  | None =>
      match start_as_int start with
      | Some 1%Z => ret ("(rest " ++ sequence ++ ")")
      | _ => ret ("(drop " ++ sequence ++ " " ++ fmt start_ ++ ")")
      end
  | Some stop_ =>
      match start_ with
      | None => ret ("(take " ++ sequence ++ " " ++ stop_ ++ ")")
      | Some start_ =>
          ret ("(subvec " ++ sequence ++ " " ++ start_ ++ " " ++ stop_ ++ ")")
      end
  end.

Definition visit_subscript (base index : AstNode) : M string :=
  sequence <- visit base ;;
  index <- visit index ;;
  ret ("(get " ++ sequence ++ " " ++ index ++ ")").

Definition visit_unary (op : string) (item : AstNode) : M string :=
  item <- visit item ;;
  ret ("(" ++ op ++ " " ++ item ++ ")").

Definition visit_vector (items : list AstNode) : M string :=
  items <- for_each visit items ;;
  ret ("[" ++ join " " items ++ "]").

Definition visit_while (test body : AstNode) : M string :=
  test <- visit test ;;
  body <- visit_indent body 2 ;;
  ret ("(while " ++ test ++ nl ++ "  " ++ body ++ ")").

End Methods.

(** Modelled from the spec: [Visitor.visit] and the nodes' dispatch are
    in [ppl_ast.py], not among the sources.  Each node goes to the
    [visit_] method of its variant; a variant without one is an internal
    error that aborts the rendering. *)
Fixpoint visit (node : AstNode) {struct node} : M string :=
  match node with
  | AstAttribute base attr => visit_attribute visit base attr
  | AstBinary lhs op rhs => visit_binary visit lhs op rhs
  | AstBody items => visit_body visit items
  | AstBreak => ret visit_break
  | AstCall function args keyword_args =>
      visit_call visit function args keyword_args
  | AstCompare lhs op rhs second_op second_right =>
      visit_compare visit lhs op rhs second_op second_right
  | AstDef name value => visit_def visit name value
  | AstFor tgt source body => visit_for visit tgt source body
  | AstFunction parameters vararg body =>
      visit_function visit parameters vararg body
  | AstIf test if_node else_node => visit_if visit test if_node else_node
  | AstImport module_name imported_names alias =>
      lift (visit_import module_name imported_names alias)
  | AstLet targets sources body => visit_let visit targets sources body
  | AstListFor tgt source expr => visit_list_for visit tgt source expr
  | AstObserve dist value => visit_observe visit dist value
  | AstReturn value => visit_return visit value
  | AstSample dist => visit_sample visit dist
  | AstSlice base start stop => visit_slice visit base start stop
  | AstSubscript base index => visit_subscript visit base index
  | AstSymbol name => ret (visit_symbol name)
  | AstUnary op item => visit_unary visit op item
  | AstValue value => ret (visit_value value)
  | AstValueVector items => ret (visit_value_vector items)
  | AstVector items => visit_vector visit items
  | AstWhile test body => visit_while visit test body
  | AstOther _ => raise InternalError
  end.

(** [dump] *)
Definition dump (ast : AstNode) : M string := visit ast.

End ClojureRepr.
Import ClojureRepr.

(* ===================================================================== *)
(** ** The claims' vocabulary *)
(* ===================================================================== *)

Module Spec.

(** "The maximum of [ns] is [m]": [m] is among them and none is larger. *)
Definition maximum_of (ns : list nat) (m : nat) : Prop :=
  In m ns /\ Forall (fun n => n <= m) ns.

Inductive is_a_list : py_value -> Prop :=
| is_a_list_intro items : is_a_list (PyList items).

Inductive list_length : py_value -> nat -> Prop :=
| list_length_intro items : list_length (PyList items) (length items).

(** "Vector-shaped": a nested vector node or a literal list. *)
Inductive vector_shaped_length : CodeObject -> nat -> Prop :=
| vector_node_length items ty :
    vector_shaped_length (CodeVector items ty) (length items)
| literal_list_length items ty :
    vector_shaped_length (CodeValue (PyList items) ty) (length items).

Definition vector_shaped (item : CodeObject) : Prop :=
  exists n, vector_shaped_length item n.

(** Rule 1 of the probe, which rule 3 mirrors over the rows of a table. *)
Inductive rows_size : list py_value -> nat -> Prop :=
| rows_nested rows lens m :
    Forall2 list_length rows lens -> maximum_of lens m -> rows_size rows m
| rows_flat rows :
    ~ Forall is_a_list rows -> rows_size rows (length rows).

(** Rule 4: the declared type. *)
Inductive declared_size : code_type -> option nat -> Prop :=
| declared_nested t :
    isinstance_SequenceType t = true ->
    isinstance_SequenceType (item_type t) = true ->
    declared_size t (size (item_type t))
| declared_plain t :
    isinstance_SequenceType t = true ->
    isinstance_SequenceType (item_type t) = false ->
    declared_size t (size t)
| declared_none t :
    isinstance_SequenceType t = false -> declared_size t None.

(** The argument is one of the first three representations. *)
Definition carries_shape (arg : CodeObject) : Prop :=
  match arg with
  | CodeValue (PyList _) _ => True
  | CodeVector (_ :: _) _ => True
  | CodeDataSymbol (_ :: _) _ => True
  | _ => False
  end.

(** The four tiers of the shape probe. *)
Inductive probe_size : CodeObject -> option nat -> Prop :=
| probe_literal rows ty n :
    rows_size rows n -> probe_size (CodeValue (PyList rows) ty) (Some n)
| probe_vector_nested items ty lens m :
    items <> [] ->
    Forall2 vector_shaped_length items lens -> maximum_of lens m ->
    probe_size (CodeVector items ty) (Some m)
| probe_vector_flat items ty :
    items <> [] -> ~ Forall vector_shaped items ->
    probe_size (CodeVector items ty) (Some (length items))
| probe_table rows ty n :
    rows <> [] -> rows_size rows n ->
    probe_size (CodeDataSymbol rows ty) (Some n)
| probe_declared arg r :
    ~ carries_shape arg -> declared_size (code_type_of arg) r ->
    probe_size arg r.

(** The argument [support_size] hands to the probe: the first, and the
    second for the count-like descriptor. *)
Definition designated_argument (self : Distribution) : nat :=
  match klass self with
  | BinomialDistributionCls => 1
  | _ => 0
  end.

(** The scalar type of the default rule. *)
Definition scalar_type (kind : DistributionType) : code_type :=
  match kind with
  | CONTINUOUS => FloatType
  | DISCRETE => IntegerType
  end.

(** The names a descriptor is looked up by: canonical name, runtime
    name, and the source alias when it is not empty. *)
Definition is_name_of (n : string) (d : Distribution) : Prop :=
  n = name d \/ n = python_name d \/ (n = foppl_name d /\ n <> "").

Definition option_string_dec (a b : option string) : {a = b} + {a <> b}.
Proof. decide equality; apply string_dec. Defined.

Definition Distribution_eq_dec (d d' : Distribution) : {d = d'} + {d <> d'}.
Proof.
  decide equality;
    first [ apply option_string_dec | apply bool_dec
          | apply (list_eq_dec string_dec) | apply string_dec
          | decide equality ].
Defined.

Definition same_descriptor (d d' : Distribution) : bool :=
  if Distribution_eq_dec d d' then true else false.

(** The names of [is_name_of], as a list. *)
Definition names_of (d : Distribution) : list string :=
  name d :: python_name d
  :: (if String.eqb (foppl_name d) "" then [] else [foppl_name d]).

(** Whoever in [ds] answers to a name of [d] is [d]. *)
Definition unambiguous (ds : list Distribution) : bool :=
  forallb (fun d =>
    forallb (fun n =>
      forallb (fun d' => implb (answers_to n d') (same_descriptor d' d)) ds)
      (names_of d)) ds.

End Spec.
Import Spec.

(* ===================================================================== *)
(** ** The tree of a rendering *)
(* ===================================================================== *)

Module Tree.

Definition optional (node : option AstNode) : list AstNode :=
  match node with
  | Some n => [n]
  | None => []
  end.

(** The child nodes of a node. *)
Definition children (node : AstNode) : list AstNode :=
  match node with
  | AstAttribute base _ => [base]
  | AstBinary lhs _ rhs => [lhs; rhs]
  | AstBody items => items
  | AstCall function args _ => function :: args
  | AstCompare lhs _ rhs _ second_right => lhs :: rhs :: optional second_right
  | AstDef _ value => [value]
  | AstFor _ source body => [source; body]
  | AstFunction _ _ body => [body]
  | AstIf test if_node else_node => test :: if_node :: optional else_node
  | AstLet _ sources body => body :: sources
  | AstListFor _ source expr => [source; expr]
  | AstObserve dist value => [dist; value]
  | AstReturn value => [value]
  | AstSample dist => [dist]
  | AstSlice base start stop => base :: (optional start ++ optional stop)%list
  | AstSubscript base index => [base; index]
  | AstUnary _ item => [item]
  | AstVector items => items
  | AstWhile test body => [test; body]
  | AstBreak | AstImport _ _ _ | AstSymbol _ | AstValue _
  | AstValueVector _ | AstOther _ => []
  end.

(** The children the renderer calls [visit] on: all of them, but for the
    sources of a [let] beyond the last target, which [zip] drops. *)
Definition visited_children (node : AstNode) : list AstNode :=
  match node with
  | AstLet targets sources body =>
      (firstn (length targets) sources ++ [body])%list
  | _ => children node
  end.

(** A node without a rendering rule sits at the root of the tree or
    below it, where the rendering gets to. *)
Inductive unsupported_inside : AstNode -> Prop :=
| unsupported_here class_name : unsupported_inside (AstOther class_name)
| unsupported_below node child :
    In child (visited_children node) -> unsupported_inside child ->
    unsupported_inside node.

(** A function node with a variadic parameter. *)
Definition is_variadic (node : AstNode) : Prop :=
  match node with
  | AstFunction _ (Some _) _ => True
  | _ => False
  end.

(** No function node of the tree has a variadic parameter. *)
Inductive variadic_free : AstNode -> Prop :=
| variadic_free_node node :
    ~ is_variadic node -> Forall variadic_free (children node) ->
    variadic_free node.

(** The list objects of [h'] are those of [h], each with zero or more
    elements appended. *)
Definition extends (h h' : store) : Prop :=
  forall r, exists suffix, h' r = (h r ++ suffix)%list.

(** A method whose runs keep the store related by [R], and a method
    that raises on every store. *)
Definition respects (R : store -> store -> Prop) {A} (c : M A) : Prop :=
  forall h, R h (fst (c h)).

Definition aborts {A} (c : M A) : Prop :=
  forall h, exists h' e, c h = (h', Raises e).

End Tree.
Import Tree.

(* ===================================================================== *)
(** ** Concrete inputs *)
(* ===================================================================== *)

Module Inputs.

(** The literal examples of the claims: [[1,2],[3,4,5]] and [1,2,3,4]. *)
Definition nested_literal : py_value :=
  PyList [PyList [PyInt 1; PyInt 2]; PyList [PyInt 3; PyInt 4; PyInt 5]].

Definition flat_literal : py_value :=
  PyList [PyInt 1; PyInt 2; PyInt 3; PyInt 4].

(** The catalogue's entries used below. *)
Definition Binomial : Distribution :=
  init BinomialDistributionCls "Binomial" (Some CONTINUOUS)
    (Some ["total_count"; "probs"]) no_keywords.

Definition Categorical : Distribution :=
  init CategoricalDistributionCls "Categorical" (Some DISCRETE)
    (Some ["probs"]) no_keywords.

Definition Dirichlet : Distribution :=
  init DistributionCls "Dirichlet" (Some CONTINUOUS) (Some ["concentration0"])
    (vector_sample_ true no_keywords).

Definition Discrete : Distribution :=
  init DistributionCls "Discrete" (Some DISCRETE) None no_keywords.

Definition LogGamma : Distribution :=
  init DistributionCls "LogGamma" (Some CONTINUOUS)
    (Some ["concentration0"; "concentration1"])
    (foppl_name_ "" (has_transform_flag_ true no_keywords)).

Definition MultivariateNormal : Distribution :=
  init DistributionCls "MultivariateNormal" (Some CONTINUOUS)
    (Some ["loc"; "covariance_matrix"])
    (vector_sample_ true (foppl_name_ "mvn" no_keywords)).

(** A count-like descriptor built with [vector_sample=True]. *)
Definition Binomial_vector : Distribution :=
  init BinomialDistributionCls "Binomial" (Some CONTINUOUS)
    (Some ["total_count"; "probs"]) (vector_sample_ true no_keywords).

(** [ListType(ListType(FloatType(), 3), 2)] *)
Definition list_of_lists : code_type :=
  ListType (ListType FloatType (Some 3)) (Some 2).

(** A store with the parameter list [['x']] behind reference 0. *)
Definition one_parameter : store :=
  fun r => match r with O => ["x"] | S _ => [] end.

(** [AstFunction(parameters=['x'], vararg='rest', body=AstSymbol('x'))] *)
Definition variadic_function : AstNode :=
  AstFunction 0 (Some "rest") (AstSymbol "x").

(** [AstSlice(AstSymbol('seq'), AstValue(2), None)] and with 1. *)
Definition slice_from (n : Z) : AstNode :=
  AstSlice (AstSymbol "seq") (Some (AstValue (PyInt n))) None.

End Inputs.
Import Inputs.

(* ===================================================================== *)
(** ** Vocabulary of the further properties *)
(* ===================================================================== *)

Module Further.

(** The three names the loop of [get_distribution_for_name] compares. *)
Definition compared_names (d : Distribution) : list string :=
  [name d; python_name d; foppl_name d].

(** No two different descriptors of [ds] answer to a common name. *)
Definition one_answer (ds : list Distribution) : bool :=
  forallb (fun d =>
    forallb (fun d' =>
      same_descriptor d' d
      || negb (existsb (fun n => answers_to n d') (compared_names d))) ds) ds.

(** A method that returns on every store, and one that raises nothing
    but exceptions in [ok]. *)
Definition returns {A} (c : M A) : Prop :=
  forall h, exists h' a, c h = (h', Returns a).

Definition raises_only (ok : exn -> Prop) {A} (c : M A) : Prop :=
  forall h h' e, c h = (h', Raises e) -> ok e.

(** A rendering that leaves the store alone and returns [s]. *)
Definition renders (node : AstNode) (s : string) : Prop :=
  forall h, visit node h = (h, Returns s).

(** An import with an alias and an empty list of imported names. *)
Definition failing_import (node : AstNode) : Prop :=
  match node with
  | AstImport _ (Some []) (Some _) => True
  | _ => False
  end.

Definition unsupported (node : AstNode) : Prop :=
  match node with
  | AstOther _ => True
  | _ => False
  end.

(** A tree with a rule for every node and no failing import. *)
Inductive renderable : AstNode -> Prop :=
| renderable_node node :
    ~ unsupported node -> ~ failing_import node ->
    Forall renderable (children node) -> renderable node.

(** The text [visit_indent] makes of a rendering. *)
Definition indented (indent : nat) (s : string) : string :=
  replace_newline (nl ++ spaces indent) s.

(** The text of a keyword argument in [visit_call]. *)
Definition keyword_text (kv : string * string) : string :=
  ":" ++ fst kv ++ " " ++ snd kv.

(** The variadic marker [visit_function] appends, and a store whose
    lists are those of [h] with markers appended. *)
Definition is_marker (s : string) : Prop := exists v, s = "& " ++ v.

Definition extends_by_markers (h h' : store) : Prop :=
  forall r, exists suffix,
    h' r = List.app (h r) suffix /\ Forall is_marker suffix.

(** Every transformed distribution a descriptor of [ds] names is the
    canonical name of a descriptor of [ds] that has the transform flag. *)
Definition transforms_resolve (ds : list Distribution) : bool :=
  forallb (fun d =>
    match transform_distribution d with
    | Some t =>
        existsb (fun d' => String.eqb (name d') t && has_transform_flag d') ds
        && has_transform_flag d
    | None => true
    end) ds.

(** The text of a binding in [visit_let]. *)
Definition binding_text (ts : target * string) : string :=
  visit_name (fst ts) ++ " " ++ indented 6 (snd ts).

End Further.
Import Further.

(* ===================================================================== *)
(** ** Shape inference *)
(* ===================================================================== *)

Section PythonLists.

Lemma fold_max_ge (ns : list nat) (n : nat) :
  n <= fold_left Nat.max ns n /\ Forall (fun k => k <= fold_left Nat.max ns n) ns.
Proof.
  revert n; induction ns as [|k ns IH]; intros n; simpl.
  - split; [lia | constructor].
  - destruct (IH (Nat.max n k)) as [Hn Hall]. split; [lia |].
    constructor; [lia | exact Hall].
Qed.

Lemma fold_max_in (ns : list nat) (n : nat) :
  fold_left Nat.max ns n = n \/ In (fold_left Nat.max ns n) ns.
Proof.
  revert n; induction ns as [|k ns IH]; intros n; simpl.
  - now left.
  - destruct (IH (Nat.max n k)) as [E | Hin].
    + rewrite E. destruct (Nat.max_spec n k) as [[_ ->] | [_ ->]]; auto.
    + auto.
Qed.

Lemma maximum_of_unique (ns : list nat) (m m' : nat) :
  maximum_of ns m -> maximum_of ns m' -> m = m'.
Proof.
  intros [Hin Hle] [Hin' Hle'].
  rewrite Forall_forall in Hle, Hle'.
  apply Nat.le_antisymm; auto.
Qed.

Lemma max_is_maximum (ns : list nat) (m : nat) :
  Py.max ns = Returns m <-> maximum_of ns m.
Proof.
  destruct ns as [|n ns]; simpl.
  - split; [discriminate | intros [[] _]].
  - assert (Hmax : maximum_of (n :: ns) (fold_left Nat.max ns n)).
    { destruct (fold_max_ge ns n) as [Hn Hall]. split.
      - destruct (fold_max_in ns n) as [-> | Hin]; simpl; auto.
      - constructor; assumption. }
    split.
    + intros E; injection E as <-. exact Hmax.
    + intros Hm. f_equal. eapply maximum_of_unique; eassumption.
Qed.

Lemma is_list_true (v : py_value) : is_list v = true <-> is_a_list v.
Proof.
  split.
  - destruct v; simpl; try discriminate. constructor.
  - intros []; reflexivity.
Qed.

Lemma forallb_is_list (rows : list py_value) :
  forallb is_list rows = true <-> Forall is_a_list rows.
Proof.
  rewrite forallb_forall, Forall_forall.
  split; intros H v Hv; apply is_list_true; auto.
Qed.

Lemma comprehension_len (rows : list py_value) (lens : list nat) :
  comprehension len rows = Returns lens <-> Forall2 list_length rows lens.
Proof.
  revert lens; induction rows as [|v rows IH]; intros lens; simpl.
  - split.
    + intros E; injection E as <-; constructor.
    + intros H; inversion H; reflexivity.
  - split.
    + destruct v; simpl; try discriminate.
      destruct (comprehension len rows) as [ys|] eqn:E; simpl; try discriminate.
      intros E'; injection E' as <-. constructor; [constructor | now apply IH].
    + intros H; inversion H as [|? n ? lens' Hv Hrest]; subst.
      destruct Hv; simpl.
      apply IH in Hrest. rewrite Hrest. reflexivity.
Qed.

Lemma Forall2_list_length_all (rows : list py_value) (lens : list nat) :
  Forall2 list_length rows lens -> Forall is_a_list rows.
Proof.
  induction 1 as [|v n rows lens Hv _ IH]; constructor; auto.
  destruct Hv; constructor.
Qed.

Lemma is_vector_true (item : CodeObject) :
  _is_vector item = true <-> vector_shaped item.
Proof.
  split.
  - destruct item as [v ty | its ty | |]; simpl; try discriminate.
    + destruct v; simpl; try discriminate. intros _; eexists; constructor.
    + intros _; eexists; constructor.
  - intros [n []]; reflexivity.
Qed.

Lemma forallb_is_vector (items : list CodeObject) :
  forallb _is_vector items = true <-> Forall vector_shaped items.
Proof.
  rewrite forallb_forall, Forall_forall.
  split; intros H v Hv; apply is_vector_true; auto.
Qed.

Lemma comprehension_code_len (items : list CodeObject) (lens : list nat) :
  Forall2 vector_shaped_length items lens ->
  comprehension code_len items = Returns lens.
Proof.
  induction 1 as [|v n items lens Hv _ IH]; simpl; [reflexivity |].
  destruct Hv; simpl; rewrite IH; reflexivity.
Qed.

Lemma Forall2_vector_shaped_all (items : list CodeObject) (lens : list nat) :
  Forall2 vector_shaped_length items lens -> Forall vector_shaped items.
Proof.
  induction 1 as [|v n items lens Hv _ IH]; constructor; auto.
  exists n; exact Hv.
Qed.

End PythonLists.

Lemma size_of_rows_sound (rows : list py_value) (n : nat) :
  rows_size rows n -> size_of_rows rows = Returns (Some n).
Proof.
  unfold size_of_rows. intros [rows' lens m Hlens Hmax | rows' Hflat].
  - pose proof (Forall2_list_length_all _ _ Hlens) as Hall.
    apply forallb_is_list in Hall. rewrite Hall.
    apply comprehension_len in Hlens. rewrite Hlens. simpl.
    apply max_is_maximum in Hmax. rewrite Hmax. reflexivity.
  - destruct (forallb is_list rows') eqn:E; [| reflexivity].
    apply forallb_is_list in E. contradiction.
Qed.

Lemma size_of_code_type_sound (t : code_type) (r : option nat) :
  declared_size t r -> size_of_code_type t = r.
Proof.
  unfold size_of_code_type.
  intros [t' H1 H2 | t' H1 H2 | t' H1]; rewrite H1; try rewrite H2; reflexivity.
Qed.

Lemma _get_support_size_sound (arg : CodeObject) (r : option nat) :
  probe_size arg r -> _get_support_size arg = Returns r.
Proof.
  intros [rows ty n Hrows | items ty lens m Hne Hlens Hmax | items ty Hne Hflat
         | rows ty n Hne Hrows | arg' r' Hshape Hty].
  - simpl. now apply size_of_rows_sound.
  - destruct items as [|i items]; [contradiction |].
    unfold _get_support_size.
    pose proof (Forall2_vector_shaped_all _ _ Hlens) as Hall.
    apply forallb_is_vector in Hall. rewrite Hall.
    rewrite (comprehension_code_len _ _ Hlens). simpl.
    apply max_is_maximum in Hmax. rewrite Hmax. reflexivity.
  - destruct items as [|i items]; [contradiction |].
    unfold _get_support_size.
    destruct (forallb _is_vector (i :: items)) eqn:E; [| reflexivity].
    apply forallb_is_vector in E. contradiction.
  - destruct rows as [|row rows]; [contradiction |].
    unfold _get_support_size. now apply size_of_rows_sound.
  - apply size_of_code_type_sound in Hty.
    destruct arg' as [[| |] ty | [|] ty | [|] ty | ty]; simpl in *;
      try contradiction; now rewrite Hty.
Qed.

Lemma size_of_rows_complete (rows : list py_value) (r : option nat) :
  size_of_rows rows = Returns r -> exists n, r = Some n /\ rows_size rows n.
Proof.
  unfold size_of_rows. destruct (forallb is_list rows) eqn:Hall.
  - destruct (comprehension len rows) as [lens|] eqn:Hlens; simpl; [| discriminate].
    destruct (Py.max lens) as [m|] eqn:Hmax; simpl; [| discriminate].
    intros E; injection E as <-. exists m. split; [reflexivity |].
    apply rows_nested with lens.
    + now apply comprehension_len.
    + now apply max_is_maximum.
  - intros E; injection E as <-. eexists; split; [reflexivity |].
    apply rows_flat. intros H. apply forallb_is_list in H. congruence.
Qed.

Lemma comprehension_code_len_complete (items : list CodeObject) (lens : list nat) :
  Forall vector_shaped items ->
  comprehension code_len items = Returns lens ->
  Forall2 vector_shaped_length items lens.
Proof.
  intros Hall; revert lens.
  induction Hall as [|item items [n Hn] _ IH]; intros lens; simpl.
  - intros E; injection E as <-; constructor.
  - destruct Hn; simpl;
      (destruct (comprehension code_len items) as [ys|]; simpl; [| discriminate]);
      intros E; injection E as <-; constructor; auto; constructor.
Qed.

Lemma declared_size_total (t : code_type) : declared_size t (size_of_code_type t).
Proof.
  unfold size_of_code_type.
  destruct (isinstance_SequenceType t) eqn:H1.
  - destruct (isinstance_SequenceType (item_type t)) eqn:H2.
    + now apply declared_nested.
    + now apply declared_plain.
  - now apply declared_none.
Qed.

Lemma _get_support_size_complete (arg : CodeObject) (r : option nat) :
  _get_support_size arg = Returns r -> probe_size arg r.
Proof.
  assert (Hdecl : forall a, ~ carries_shape a ->
            Returns (size_of_code_type (code_type_of a)) = Returns r ->
            probe_size a r).
  { intros a Ha E; injection E as <-.
    apply probe_declared; [exact Ha | apply declared_size_total]. }
  destruct arg as [[z | text | rows] ty | [| i items] ty | [| row rows] ty | ty];
    try (apply Hdecl; simpl; tauto).
  - simpl. intros E. apply size_of_rows_complete in E as [n [-> Hn]].
    now apply probe_literal.
  - unfold _get_support_size.
    destruct (forallb _is_vector (i :: items)) eqn:Hall.
    + apply forallb_is_vector in Hall.
      destruct (comprehension code_len (i :: items)) as [lens|] eqn:Hlens;
        [| discriminate].
      simpl. destruct (Py.max lens) as [m|] eqn:Hmax; simpl; [| discriminate].
      intros E; injection E as <-.
      apply probe_vector_nested with lens; [discriminate | |].
      * now apply comprehension_code_len_complete.
      * now apply max_is_maximum.
    + intros E; injection E as <-.
      apply probe_vector_flat; [discriminate |].
      intros H. apply forallb_is_vector in H. congruence.
  - unfold _get_support_size. intros E.
    apply size_of_rows_complete in E as [n [-> Hn]].
    apply probe_table; [discriminate | exact Hn].
Qed.

Lemma flat_literal_not_nested :
  ~ Forall is_a_list [PyInt 1; PyInt 2; PyInt 3; PyInt 4].
Proof. intros H; inversion H as [|? ? Hhd _]; inversion Hhd. Qed.

(** C8. [support_size] hands the first argument (the second for the
    count-like descriptor) to the shape probe, and the probe answers by the
    four tiers: the maximum inner length or the outer length of a literal
    list, the same over the items of a non-empty vector node and over the
    rows of a non-empty data table, and otherwise what the declared type
    gives (inner size, size, or nothing).  The two literal examples give
    3 and 4. *)
Theorem support_size_four_tiers
    (self : Distribution) (args : list CodeObject) (arg : CodeObject)
    (r : option nat) :
  nth_error args (designated_argument self) = Some arg ->
  probe_size arg r ->
  get_support_size self args = Returns r
  /\ _get_support_size (CodeValue nested_literal AnyType) = Returns (Some 3)
  /\ _get_support_size (CodeValue flat_literal AnyType) = Returns (Some 4).
Proof.
  intros Harg Hprobe. split; [| split; reflexivity].
  apply _get_support_size_sound in Hprobe.
  unfold get_support_size, designated_argument, subscript in *.
  destruct (klass self); rewrite Harg; simpl; exact Hprobe.
Qed.

Lemma support_size_four_tiers_witness :
  nth_error [CodeOther IntegerType; CodeValue nested_literal AnyType]
    (designated_argument Binomial) = Some (CodeValue nested_literal AnyType)
  /\ probe_size (CodeValue nested_literal AnyType) (Some 3)
  /\ get_support_size Binomial
       [CodeOther IntegerType; CodeValue nested_literal AnyType] = Returns (Some 3).
Proof.
  assert (Hprobe : probe_size (CodeValue nested_literal AnyType) (Some 3)).
  { apply probe_literal. apply rows_nested with [2; 3].
    - apply Forall2_cons; [exact (list_length_intro [PyInt 1; PyInt 2]) |].
      apply Forall2_cons; [exact (list_length_intro [PyInt 3; PyInt 4; PyInt 5]) |].
      apply Forall2_nil.
    - split; [simpl; auto | repeat constructor]. }
  split; [reflexivity | split; [exact Hprobe |]].
  exact (proj1 (support_size_four_tiers Binomial
                  [CodeOther IntegerType; CodeValue nested_literal AnyType]
                  (CodeValue nested_literal AnyType) (Some 3) eq_refl Hprobe)).
Defined.

(** C10. On a literal whose list value is empty the probe raises: every
    element of the empty list is a list, and the maximum of no lengths
    does not exist.  The empty vector node and the empty data table are
    guarded and go on to the declared type. *)
Theorem empty_literal_probe_raises (ty : code_type) :
  forallb is_list [] = true
  /\ _get_support_size (CodeValue (PyList []) ty) = Raises ValueError
  /\ (forall (self : Distribution) (rest : list CodeObject),
        klass self <> BinomialDistributionCls ->
        get_support_size self (CodeValue (PyList []) ty :: rest) = Raises ValueError)
  /\ _get_support_size (CodeVector [] ty) = Returns (size_of_code_type ty)
  /\ _get_support_size (CodeDataSymbol [] ty) = Returns (size_of_code_type ty).
Proof.
  repeat split.
  intros self rest Hcls. unfold get_support_size.
  destruct (klass self); try reflexivity. contradiction.
Qed.

Lemma empty_literal_probe_raises_witness :
  klass Discrete <> BinomialDistributionCls
  /\ get_support_size Discrete [CodeValue (PyList []) AnyType] = Raises ValueError.
Proof.
  split; [discriminate |].
  apply (proj1 (proj2 (proj2 (empty_literal_probe_raises AnyType)))).
  discriminate.
Defined.

(* ===================================================================== *)
(** ** Sample types *)
(* ===================================================================== *)

(** C6. A descriptor without an override: the scalar type of its kind,
    whatever the arguments; and when it is a vector-sample descriptor
    whose first argument is a sequence type of size [N], a list of size
    [N] of that scalar type. *)
Theorem default_sample_type (self : Distribution) (args : list code_type) :
  klass self = DistributionCls ->
  (forall arg0 rest,
      _vector_sample self = true -> args = arg0 :: rest ->
      isinstance_SequenceType arg0 = true ->
      get_sample_type self args
      = ListType (scalar_type (distribution_type self)) (size arg0))
  /\ (_vector_sample self = false \/ args = []
      \/ (exists arg0 rest, args = arg0 :: rest
                            /\ isinstance_SequenceType arg0 = false) ->
      get_sample_type self args = scalar_type (distribution_type self)).
Proof.
  intros Hcls. unfold get_sample_type. rewrite Hcls.
  unfold Distribution_get_sample_type, scalar_type. split.
  - intros arg0 rest Hvec -> Hseq. rewrite Hvec, Hseq. reflexivity.
  - intros [Hvec | [-> | [arg0 [rest [-> Hseq]]]]].
    + rewrite Hvec. reflexivity.
    + now rewrite andb_false_r.
    + rewrite Hseq. now destruct (_vector_sample self).
Qed.

Lemma default_sample_type_witness :
  klass Dirichlet = DistributionCls
  /\ get_sample_type Dirichlet [ListType FloatType (Some 4); FloatType]
     = ListType FloatType (Some 4)
  /\ get_sample_type Dirichlet [FloatType] = FloatType.
Proof.
  split; [reflexivity |]. split.
  - apply (proj1 (default_sample_type Dirichlet
                    [ListType FloatType (Some 4); FloatType] eq_refl)
             (ListType FloatType (Some 4)) [FloatType]); reflexivity.
  - apply (proj2 (default_sample_type Dirichlet [FloatType] eq_refl)).
    right; right. exists FloatType, []. split; reflexivity.
Defined.

Lemma BinomialDistribution_get_sample_type_constant
    (self : Distribution) (args : list code_type) :
  BinomialDistribution_get_sample_type self args = IntegerType.
Proof. reflexivity. Qed.

(** C3. The count-like descriptor: [sample_type] returns the scalar
    integer type for every descriptor and every argument list; for a
    vector-sample descriptor whose second argument is a list type of size
    3 the result is therefore not the list of 3 integers. *)
Theorem binomial_sample_type_is_scalar :
  (forall self args,
      klass self = BinomialDistributionCls ->
      get_sample_type self args = IntegerType)
  /\ _vector_sample Binomial_vector = true
  /\ get_sample_type Binomial_vector [IntegerType; ListType FloatType (Some 3)]
     = IntegerType
  /\ get_sample_type Binomial_vector [IntegerType; ListType FloatType (Some 3)]
     <> ListType IntegerType (Some 3).
Proof.
  repeat split; try discriminate.
  intros self args Hcls. unfold get_sample_type. now rewrite Hcls.
Qed.

Lemma binomial_sample_type_is_scalar_witness :
  klass Binomial_vector = BinomialDistributionCls
  /\ get_sample_type Binomial_vector [] = IntegerType.
Proof.
  split; [reflexivity |].
  exact (proj1 binomial_sample_type_is_scalar Binomial_vector [] eq_refl).
Defined.

(** The parts of the categorical rule the code has as written. *)
Lemma categorical_sample_type_cases (self : Distribution) (args : list code_type) :
  klass self = CategoricalDistributionCls ->
  (forall arg, args = [arg] -> isinstance_ListType arg = true ->
               isinstance_ListType (item_type arg) = true ->
               get_sample_type self args = ListType IntegerType_class (size arg))
  /\ (forall arg, args = [arg] -> isinstance_SequenceType arg = true ->
                  isinstance_ListType arg && isinstance_ListType (item_type arg) = false ->
                  get_sample_type self args = IntegerType)
  /\ (forall arg, args = [arg] -> isinstance_SequenceType arg = false ->
                  get_sample_type self args = AnyType)
  /\ (length args <> 1 -> get_sample_type self args = AnyType).
Proof.
  intros Hcls. unfold get_sample_type. rewrite Hcls.
  unfold CategoricalDistribution_get_sample_type. repeat split.
  - intros arg -> H1 H2. now rewrite H1, H2.
  - intros arg -> H1 H2. now rewrite H2, H1.
  - intros arg -> H1. rewrite H1.
    destruct arg; try discriminate; reflexivity.
  - intros Hlen. destruct args as [|a [|b rest]]; simpl in *; try reflexivity.
    contradiction.
Qed.

(** C7. The categorical-like descriptor on one argument that is a list
    of lists: the result is a list type of the argument's size whose item
    type is the class object, not the integer type; it is a sequence of
    integers of no size. *)
Theorem categorical_sample_type_item_is_class
    (self : Distribution) (arg : code_type) :
  klass self = CategoricalDistributionCls ->
  isinstance_ListType arg = true ->
  isinstance_ListType (item_type arg) = true ->
  get_sample_type self [arg] = ListType IntegerType_class (size arg)
  /\ forall N, get_sample_type self [arg] <> ListType IntegerType N
               /\ get_sample_type self [arg] <> SequenceType IntegerType N.
Proof.
  intros Hcls Hlist Hitem.
  destruct (categorical_sample_type_cases self [arg] Hcls) as [Hnested _].
  rewrite (Hnested arg eq_refl Hlist Hitem).
  split; [reflexivity | intros N; split; discriminate].
Qed.

Lemma categorical_sample_type_item_is_class_witness :
  klass Categorical = CategoricalDistributionCls
  /\ isinstance_ListType list_of_lists = true
  /\ isinstance_ListType (item_type list_of_lists) = true
  /\ get_sample_type Categorical [list_of_lists]
     = ListType IntegerType_class (Some 2)
  /\ get_sample_type Categorical [list_of_lists] <> ListType IntegerType (Some 2).
Proof.
  split; [reflexivity | split; [reflexivity | split; [reflexivity |]]].
  split.
  - exact (proj1 (categorical_sample_type_item_is_class Categorical list_of_lists
                    eq_refl eq_refl eq_refl)).
  - exact (proj1 (proj2 (categorical_sample_type_item_is_class Categorical
                           list_of_lists eq_refl eq_refl eq_refl) (Some 2))).
Defined.

(* ===================================================================== *)
(** ** Catalogue lookup *)
(* ===================================================================== *)

Section Lookup.

Lemma is_name_of_names_of (n : string) (d : Distribution) :
  is_name_of n d -> In n (names_of d).
Proof.
  unfold is_name_of, names_of.
  intros [-> | [-> | [-> Hne]]]; simpl; auto.
  right; right. destruct (String.eqb_spec (foppl_name d) ""); [contradiction |].
  now left.
Qed.

Lemma is_name_of_answers (n : string) (d : Distribution) :
  is_name_of n d -> answers_to n d = true.
Proof.
  unfold is_name_of, answers_to.
  intros [-> | [-> | [-> _]]]; rewrite String.eqb_refl;
    rewrite ?orb_true_r; reflexivity.
Qed.

Lemma unambiguous_spec (ds : list Distribution) :
  unambiguous ds = true ->
  forall d n d', In d ds -> is_name_of n d -> In d' ds ->
                 answers_to n d' = true -> d' = d.
Proof.
  unfold unambiguous. intros H d n d' Hd Hn Hd' Hans.
  rewrite forallb_forall in H. specialize (H d Hd).
  rewrite forallb_forall in H. specialize (H n (is_name_of_names_of n d Hn)).
  rewrite forallb_forall in H. specialize (H d' Hd').
  rewrite Hans in H. simpl in H. unfold same_descriptor in H.
  destruct (Distribution_eq_dec d' d); [assumption | discriminate].
Qed.

(** The loop returns the one element that passes its test. *)
Lemma lookup_only_match (ds : list Distribution) (n : string) (d : Distribution) :
  In d ds -> answers_to n d = true ->
  (forall d', In d' ds -> answers_to n d' = true -> d' = d) ->
  get_distribution_for_name_in ds n = Some d.
Proof.
  induction ds as [|x ds IH]; intros Hin Hans Huniq; [destruct Hin |].
  simpl. destruct (answers_to n x) eqn:Hx.
  - f_equal. apply Huniq; [now left | exact Hx].
  - destruct Hin as [-> | Hin]; [congruence |].
    apply IH; auto. intros d' Hd'. apply Huniq. now right.
Qed.

Lemma distributions_unambiguous : unambiguous distributions = true.
Proof. vm_compute. reflexivity. Qed.

End Lookup.

(** C4. Whatever the order the catalogue is gone through, looking up the
    canonical name, the runtime name or the non-empty source alias of one
    of its descriptors returns that descriptor. *)
Theorem lookup_alias_round_trip
    (ds : list Distribution) (d : Distribution) (n : string) :
  Permutation distributions ds -> In d ds -> is_name_of n d ->
  get_distribution_for_name_in ds n = Some d.
Proof.
  intros Hperm Hd Hn.
  assert (Hback : forall x, In x ds -> In x distributions).
  { intros x. apply Permutation_in. now apply Permutation_sym. }
  apply lookup_only_match; [exact Hd | now apply is_name_of_answers |].
  intros d' Hd' Hans.
  apply (unambiguous_spec distributions distributions_unambiguous d n d'); auto.
Qed.

Lemma lookup_alias_round_trip_witness :
  Permutation distributions (rev distributions)
  /\ In MultivariateNormal (rev distributions)
  /\ is_name_of "mvn" MultivariateNormal
  /\ get_distribution_for_name_in (rev distributions) "mvn" = Some MultivariateNormal.
Proof.
  assert (Hperm : Permutation distributions (rev distributions))
    by apply Permutation_rev.
  assert (Hin : In MultivariateNormal (rev distributions))
    by (simpl; tauto).
  assert (Hname : is_name_of "mvn" MultivariateNormal)
    by (right; right; split; [reflexivity | discriminate]).
  split; [exact Hperm | split; [exact Hin | split; [exact Hname |]]].
  exact (lookup_alias_round_trip _ _ _ Hperm Hin Hname).
Defined.

(** C5. Whatever the order the catalogue is gone through, looking up the
    empty string returns the descriptor whose source alias is empty; the
    map of the descriptors by source alias leaves that descriptor out. *)
Theorem lookup_empty_name_finds_LogGamma (ds : list Distribution) :
  Permutation distributions ds ->
  foppl_name LogGamma = ""
  /\ get_distribution_for_name_in ds "" = Some LogGamma
  /\ ~ In LogGamma (map snd (foppl_distributions_map_in ds)).
Proof.
  intros Hperm. split; [reflexivity |].
  assert (Hback : forall x, In x ds -> In x distributions).
  { intros x. apply Permutation_in. now apply Permutation_sym. }
  split.
  - apply lookup_only_match.
    + apply (Permutation_in _ Hperm). simpl; tauto.
    + reflexivity.
    + intros d' Hd' Hans. apply Hback in Hd'.
      simpl in Hd'.
      repeat (destruct Hd' as [<- | Hd']; [first [reflexivity | discriminate] |]).
      destruct Hd'.
  - unfold foppl_distributions_map_in. rewrite map_map. simpl.
    rewrite map_id. intros Hin. apply filter_In in Hin as [_ Hin].
    discriminate.
Qed.

Lemma lookup_empty_name_finds_LogGamma_witness :
  Permutation distributions distributions
  /\ get_distribution_for_name_in distributions "" = Some LogGamma.
Proof.
  split; [apply Permutation_refl |].
  exact (proj1 (proj2 (lookup_empty_name_finds_LogGamma distributions
                         (Permutation_refl distributions)))).
Defined.

(* ===================================================================== *)
(** ** The renderer *)
(* ===================================================================== *)

(** Induction on a tree, the property known of all children. *)
Lemma AstNode_children_ind (P : AstNode -> Prop) :
  (forall node, Forall P (children node) -> P node) -> forall node, P node.
Proof.
  intros step.
  fix IH 1.
  assert (all : forall nodes, Forall P nodes).
  { fix IHl 1. intros [|n nodes]; constructor; [apply IH | apply IHl]. }
  assert (opt : forall o, Forall P (optional o)).
  { intros [n|]; simpl; repeat constructor. apply IH. }
  intros node. apply step.
  destruct node; simpl;
    repeat first [ apply Forall_nil | apply Forall_cons; [apply IH |]
                 | apply Forall_app; split | apply opt | apply all ].
Qed.

Ltac split_children :=
  repeat match goal with
         | H : Forall _ (_ :: _) |- _ => apply Forall_cons_iff in H; destruct H
         | H : Forall _ (_ ++ _)%list |- _ => apply Forall_app in H; destruct H
         | H : Forall _ (optional ?o) |- _ => destruct o; simpl in H
         | H : Forall _ [] |- _ => clear H
         end.

(** What the rendering does to the store of list objects, for a relation
    [R] on stores that is reflexive and transitive and that the one
    mutation of the renderer, the [append] of [visit_function], keeps on
    the trees considered ([tame]). *)
Section Respects.

Variable R : store -> store -> Prop.
Hypothesis R_refl : forall h, R h h.
Hypothesis R_trans : forall h1 h2 h3, R h1 h2 -> R h2 h3 -> R h1 h3.

Lemma respects_ret {A} (a : A) : respects R (ret a).
Proof. intros h; apply R_refl. Qed.

Lemma respects_raise {A} (e : exn) : respects R (@raise A e).
Proof. intros h; apply R_refl. Qed.

Lemma respects_lift {A} (c : outcome A) : respects R (lift c).
Proof. intros h; apply R_refl. Qed.

Lemma respects_read (r : ref) : respects R (read r).
Proof. intros h; apply R_refl. Qed.

Lemma respects_bind {A B} (c : M A) (k : A -> M B) :
  respects R c -> (forall a, respects R (k a)) -> respects R (bind c k).
Proof.
  intros Hc Hk h. specialize (Hc h). unfold bind.
  destruct (c h) as [h' [a | e]]; simpl in *.
  - eapply R_trans; [exact Hc | apply Hk].
  - exact Hc.
Qed.

Lemma respects_for_each {A B} (f : A -> M B) (xs : list A) :
  Forall (fun x => respects R (f x)) xs -> respects R (for_each f xs).
Proof.
  induction 1 as [|x xs Hx _ IH]; simpl.
  - apply respects_ret.
  - apply respects_bind; [exact Hx | intros y].
    apply respects_bind; [exact IH | intros ys]. apply respects_ret.
Qed.

Lemma respects_for_each_zip {A B C} (f : A -> B -> M C)
    (xs : list A) (ys : list B) :
  Forall (fun y => forall x, respects R (f x y)) ys ->
  respects R (for_each_zip f xs ys).
Proof.
  intros Hys; revert xs.
  induction Hys as [|y ys Hy _ IH]; intros xs; simpl.
  - apply respects_ret.
  - destruct xs as [|x xs]; [apply respects_ret |].
    apply respects_bind; [apply Hy | intros z].
    apply respects_bind; [apply IH | intros zs]. apply respects_ret.
Qed.

Variable tame : AstNode -> Prop.
Hypothesis tame_children : forall node, tame node -> Forall tame (children node).
Hypothesis tame_append :
  forall r v body, tame (AstFunction r (Some v) body) ->
                   forall h, R h (append r ("& " ++ v) h).

Ltac respects_step :=
  match goal with
  | H : respects R ?c |- respects R ?c => exact H
  | |- respects R (ret _) => apply respects_ret
  | |- respects R (lift _) => apply respects_lift
  | |- respects R (raise _) => apply respects_raise
  | |- respects R (read _) => apply respects_read
  | |- respects R (bind _ _) => apply respects_bind; [| intros ?]
  | |- respects R (visit_indent _ _ _) => unfold visit_indent
  | |- respects R (for_each _ _) =>
      apply respects_for_each;
      match goal with
      | H : Forall _ ?xs |- Forall _ ?xs =>
          apply (Forall_impl _ (P := fun c => respects R (visit c)));
          [intros ? ? | exact H]
      end
  | |- respects R (for_each_zip _ _ _) =>
      apply respects_for_each_zip;
      match goal with
      | H : Forall _ ?xs |- Forall _ ?xs =>
          apply (Forall_impl _ (P := fun c => respects R (visit c)));
          [intros ? ? ? | exact H]
      end
  | |- respects R (match ?x with _ => _ end) => destruct x
  end.

Lemma visit_respects (node : AstNode) : tame node -> respects R (visit node).
Proof.
  induction node as [node IH] using AstNode_children_ind. intros Htame.
  assert (Hkids : Forall (fun c => respects R (visit c)) (children node)).
  { pose proof (tame_children node Htame) as Hall.
    rewrite Forall_forall in *. auto. }
  clear IH.
  destruct node; simpl in Hkids; split_children; simpl;
    try (unfold visit_attribute, visit_binary, visit_body, visit_call,
           visit_compare, visit_def, visit_for, visit_if, visit_let,
           visit_list_for, visit_observe, visit_return, visit_sample,
           visit_slice, visit_subscript, visit_unary, visit_vector,
           visit_while, visit_optional, visit_indent_optional;
         repeat respects_step).
  (* visit_function *)
  unfold visit_function.
  apply respects_bind; [| intros []; repeat respects_step].
  destruct vararg as [v |]; [| apply respects_ret].
  intros h. apply (tame_append _ _ _ Htame).
Qed.

End Respects.

Lemma extends_refl (h : store) : extends h h.
Proof. intros r; exists []; now rewrite app_nil_r. Qed.

Lemma extends_trans (h1 h2 h3 : store) :
  extends h1 h2 -> extends h2 h3 -> extends h1 h3.
Proof.
  intros H12 H23 r. destruct (H12 r) as [s1 E1], (H23 r) as [s2 E2].
  exists (s1 ++ s2)%list. now rewrite E2, E1, app_assoc.
Qed.

Lemma extends_append (r : ref) (x : string) (h : store) : extends h (append r x h).
Proof.
  intros r'. unfold append. destruct (Nat.eqb_spec r' r) as [-> |].
  - now exists [x].
  - exists []; now rewrite app_nil_r.
Qed.

(** Rendering only ever appends to the list objects. *)
Lemma visit_extends (node : AstNode) : respects extends (visit node).
Proof.
  apply (visit_respects extends extends_refl extends_trans (fun _ => True)).
  - intros n _. rewrite Forall_forall. auto.
  - intros r v body _ h. apply extends_append.
  - exact I.
Qed.

(** Rendering a tree without variadic functions leaves the store as it
    was, and so gives the same result when run again. *)
Lemma visit_variadic_free (node : AstNode) :
  variadic_free node ->
  forall h, fst (visit node h) = h /\ visit node (fst (visit node h)) = visit node h.
Proof.
  intros Hfree h.
  assert (Hsame : fst (visit node h) = h).
  { symmetry.
    apply (visit_respects eq (@eq_refl store) (@eq_trans store) variadic_free);
      [| | exact Hfree].
    - intros n Hn. now destruct Hn.
    - intros r v body Hn. inversion Hn as [n Hnot _ Hnode]; subst.
      exfalso. apply Hnot. exact I. }
  split; [exact Hsame | now rewrite Hsame].
Qed.

Lemma bind_modify {A} (f : store -> store) (k : unit -> M A) (h : store) :
  bind (modify f) k h = k tt (f h).
Proof. reflexivity. Qed.

Ltac extends_step :=
  first [ apply visit_extends
        | apply (respects_ret extends extends_refl)
        | apply (respects_read extends extends_refl)
        | apply (respects_bind extends extends_trans); [| intros ?] ].

(** [visit_function] with a variadic parameter: the list object of the
    node has the marker appended, whatever the body does. *)
Lemma visit_function_appends (h : store) (r : ref) (v : string) (body : AstNode) :
  exists suffix,
    fst (visit (AstFunction r (Some v) body) h) r
    = List.app (h r) (("& " ++ v) :: suffix).
Proof.
  simpl visit. unfold visit_function. rewrite bind_modify.
  match goal with
  | |- context [fst (?c ?h1) r] => assert (Hrest : respects extends c)
  end.
  { unfold visit_indent. repeat extends_step. }
  destruct (Hrest (append r ("& " ++ v) h) r) as [suffix Hr].
  exists suffix. rewrite Hr. unfold append. rewrite Nat.eqb_refl.
  now rewrite <- app_assoc.
Qed.

(** C2. Rendering a function node with a variadic parameter changes the
    parameter list of the node, on every store and for every body: the
    tree is not left as it was.  On the function of one parameter [x] and
    variadic parameter [rest] the list becomes [x], [& rest], and the
    second rendering differs from the first. *)
Theorem render_changes_parameter_list :
  (forall h r v body, fst (dump (AstFunction r (Some v) body) h) r <> h r)
  /\ one_parameter 0 = ["x"]
  /\ fst (dump variadic_function one_parameter) 0 = ["x"; "& rest"]
  /\ snd (dump variadic_function one_parameter)
     = Returns ("(fn [x & rest]" ++ nl ++ "  x)")
  /\ snd (dump variadic_function (fst (dump variadic_function one_parameter)))
     = Returns ("(fn [x & rest & rest]" ++ nl ++ "  x)").
Proof.
  split; [| repeat split].
  intros h r v body E. unfold dump in E.
  destruct (visit_function_appends h r v body) as [suffix Happ].
  rewrite Happ in E. apply (f_equal (@length string)) in E.
  rewrite length_app in E. simpl in E. lia.
Qed.

(* --------------------------------------------------------------------- *)
(** *** Slices *)

Section Slice.

Variables (base : AstNode) (h h1 : store) (sequence : string).
Hypothesis Hbase : visit base h = (h1, Returns sequence).

Lemma visit_slice_rest (start : AstNode) (h2 : store) (s : string) :
  visit start h1 = (h2, Returns s) -> start_as_int (Some start) = Some 1%Z ->
  visit (AstSlice base (Some start) None) h
  = (h2, Returns ("(rest " ++ sequence ++ ")")).
Proof.
  intros Hstart Hone. simpl visit.
  unfold visit_slice, visit_optional, bind, ret.
  rewrite Hbase, Hstart, Hone. reflexivity.
Qed.

Lemma visit_slice_drop (start : AstNode) (h2 : store) (s : string) :
  visit start h1 = (h2, Returns s) -> start_as_int (Some start) <> Some 1%Z ->
  visit (AstSlice base (Some start) None) h
  = (h2, Returns ("(drop " ++ sequence ++ " " ++ s ++ ")")).
Proof.
  intros Hstart Hone. simpl visit.
  unfold visit_slice, visit_optional, bind, ret.
  rewrite Hbase, Hstart.
  destruct (start_as_int (Some start)) as [[| [p | p |] | p] |];
    try reflexivity. now contradiction Hone.
Qed.

Lemma visit_slice_take (stop : AstNode) (h2 : store) (e : string) :
  visit stop h1 = (h2, Returns e) ->
  visit (AstSlice base None (Some stop)) h
  = (h2, Returns ("(take " ++ sequence ++ " " ++ e ++ ")")).
Proof.
  intros Hstop. simpl visit.
  unfold visit_slice, visit_optional, bind, ret.
  rewrite Hbase, Hstop. reflexivity.
Qed.

Lemma visit_slice_subvec (start stop : AstNode) (h2 h3 : store) (s e : string) :
  visit start h1 = (h2, Returns s) -> visit stop h2 = (h3, Returns e) ->
  visit (AstSlice base (Some start) (Some stop)) h
  = (h3, Returns ("(subvec " ++ sequence ++ " " ++ s ++ " " ++ e ++ ")")).
Proof.
  intros Hstart Hstop. simpl visit.
  unfold visit_slice, visit_optional, bind, ret.
  rewrite Hbase, Hstart, Hstop. reflexivity.
Qed.

End Slice.

(** C1. A slice with a lower bound other than the literal 1 and no upper
    bound renders as the "drop" form with the sequence before the amount:
    for the lower bound 2 that is [(drop seq 2)], not [(drop 2 seq)]. *)
Theorem slice_drop_puts_sequence_first
    (base start : AstNode) (h h1 h2 : store) (sequence amount : string) :
  visit base h = (h1, Returns sequence) ->
  visit start h1 = (h2, Returns amount) ->
  start_as_int (Some start) <> Some 1%Z ->
  dump (AstSlice base (Some start) None) h
  = (h2, Returns ("(drop " ++ sequence ++ " " ++ amount ++ ")"))
  /\ dump (slice_from 2) h = (h, Returns "(drop seq 2)")
  /\ dump (slice_from 2) h <> (h, Returns "(drop 2 seq)")
  /\ dump (slice_from 1) h = (h, Returns "(rest seq)").
Proof.
  intros Hbase Hstart Hone. split.
  - unfold dump. now apply visit_slice_drop with h1.
  - repeat split. discriminate.
Qed.

Lemma slice_drop_puts_sequence_first_witness :
  start_as_int (Some (AstValue (PyInt 2))) <> Some 1%Z
  /\ dump (AstSlice (AstSymbol "seq") (Some (AstValue (PyInt 2))) None) one_parameter
     = (one_parameter, Returns "(drop seq 2)").
Proof.
  assert (Hone : start_as_int (Some (AstValue (PyInt 2))) <> Some 1%Z)
    by discriminate.
  split; [exact Hone |].
  exact (proj1 (slice_drop_puts_sequence_first (AstSymbol "seq")
                  (AstValue (PyInt 2)) one_parameter one_parameter one_parameter
                  "seq" "2" eq_refl eq_refl Hone)).
Defined.

(* --------------------------------------------------------------------- *)
(** *** Nodes without a rendering rule *)

Section Aborts.

Lemma aborts_raise {A} (e : exn) : aborts (@raise A e).
Proof. intros h; now exists h, e. Qed.

Lemma aborts_bind_l {A B} (c : M A) (k : A -> M B) :
  aborts c -> aborts (bind c k).
Proof.
  intros Hc h. destruct (Hc h) as [h' [e E]].
  exists h', e. unfold bind. now rewrite E.
Qed.

Lemma aborts_bind_r {A B} (c : M A) (k : A -> M B) :
  (forall a, aborts (k a)) -> aborts (bind c k).
Proof.
  intros Hk h. unfold bind. destruct (c h) as [h' [a | e]].
  - apply Hk.
  - now exists h', e.
Qed.

Lemma aborts_for_each {A B} (f : A -> M B) (xs : list A) (x : A) :
  In x xs -> aborts (f x) -> aborts (for_each f xs).
Proof.
  intros Hin Hx. induction xs as [|y xs IH]; [destruct Hin |]. simpl.
  destruct Hin as [-> | Hin].
  - now apply aborts_bind_l.
  - apply aborts_bind_r; intros b. apply aborts_bind_l. now apply IH.
Qed.

Lemma aborts_for_each_zip {A B C} (f : A -> B -> M C)
    (xs : list A) (ys : list B) (y : B) :
  In y (firstn (length xs) ys) -> (forall x, aborts (f x y)) ->
  aborts (for_each_zip f xs ys).
Proof.
  intros Hin Hy. revert xs Hin.
  induction ys as [|y' ys IH]; intros [|x xs] Hin; simpl in Hin;
    try (now destruct Hin).
  simpl. destruct Hin as [-> | Hin].
  - apply aborts_bind_l, Hy.
  - apply aborts_bind_r; intros c. apply aborts_bind_l. now apply IH.
Qed.

End Aborts.

Ltac split_in :=
  repeat match goal with
         | H : In _ (_ :: _) |- _ => destruct H as [H | H]; [subst |]
         | H : In _ (_ ++ _)%list |- _ => apply in_app_or in H; destruct H as [H | H]
         | H : In _ (optional ?o) |- _ => destruct o; cbn [optional] in H
         | H : In _ [] |- _ => destruct H
         end.

Ltac aborts_step :=
  match goal with
  | H : aborts ?c |- aborts ?c => exact H
  | H : aborts (visit ?c) |- aborts (bind (visit ?c) _) =>
      apply aborts_bind_l; exact H
  | H : aborts (visit ?c) |- aborts (bind (visit_indent visit ?c _) _) =>
      apply aborts_bind_l; unfold visit_indent; apply aborts_bind_l; exact H
  | H : aborts (visit ?c) |- aborts (bind (visit_optional visit (Some ?c)) _) =>
      apply aborts_bind_l; simpl; apply aborts_bind_l; exact H
  | H : aborts (visit ?c)
    |- aborts (bind (visit_indent_optional visit (Some ?c) _) _) =>
      apply aborts_bind_l; simpl; apply aborts_bind_l;
      unfold visit_indent; apply aborts_bind_l; exact H
  | H : aborts (visit ?c), Hin : In ?c ?xs |- aborts (bind (for_each _ ?xs) _) =>
      apply aborts_bind_l; apply (aborts_for_each _ _ c Hin);
      try unfold visit_indent; try apply aborts_bind_l; exact H
  | H : aborts (visit ?c), Hin : In ?c (firstn _ ?ys)
    |- aborts (bind (for_each_zip _ _ ?ys) _) =>
      apply aborts_bind_l; apply (aborts_for_each_zip _ _ _ c Hin); intros ?;
      unfold visit_indent; apply aborts_bind_l; apply aborts_bind_l; exact H
  | |- aborts (bind _ _) => apply aborts_bind_r; intros ?
  end.

Lemma unsupported_inside_aborts (node : AstNode) :
  unsupported_inside node -> aborts (visit node).
Proof.
  induction 1 as [class_name | node child Hin _ IH].
  - apply aborts_raise.
  - destruct node; cbn [visited_children children] in Hin; split_in; simpl visit;
      unfold visit_attribute, visit_binary, visit_body, visit_call,
        visit_compare, visit_def, visit_for, visit_function, visit_if,
        visit_let, visit_list_for, visit_observe, visit_return, visit_sample,
        visit_slice, visit_subscript, visit_unary, visit_vector, visit_while;
      repeat aborts_step.
Qed.

(** C9. Rendering a node of a variant without a rule raises the internal
    error at once, the store untouched; and a rendering that gets to such
    a node anywhere in the tree raises, it never returns a string. *)
Theorem unsupported_node_aborts
    (class_name : string) (node : AstNode) (h : store) :
  dump (AstOther class_name) h = (h, Raises InternalError)
  /\ (unsupported_inside node ->
      (exists h' e, dump node h = (h', Raises e))
      /\ forall h' s, dump node h <> (h', Returns s)).
Proof.
  split; [reflexivity |]. intros Hin.
  destruct (unsupported_inside_aborts node Hin h) as [h' [e E]].
  unfold dump. split.
  - now exists h', e.
  - intros h'' s. rewrite E. discriminate.
Qed.

Lemma unsupported_node_aborts_witness :
  unsupported_inside (AstBody [AstSymbol "x"; AstReturn (AstOther "AstDict")])
  /\ exists h' e,
       dump (AstBody [AstSymbol "x"; AstReturn (AstOther "AstDict")]) one_parameter
       = (h', Raises e).
Proof.
  assert (Hin : unsupported_inside
                  (AstBody [AstSymbol "x"; AstReturn (AstOther "AstDict")])).
  { apply unsupported_below with (AstReturn (AstOther "AstDict")).
    - simpl; auto.
    - apply unsupported_below with (AstOther "AstDict").
      + simpl; auto.
      + apply unsupported_here. }
  split; [exact Hin |].
  exact (proj1 (proj2 (unsupported_node_aborts "AstDict" _ one_parameter) Hin)).
Defined.

(* ===================================================================== *)
(** ** Further properties: the catalogue *)
(* ===================================================================== *)

Section LookupOrder.

Lemma lookup_some (ds : list Distribution) (n : string) (d : Distribution) :
  get_distribution_for_name_in ds n = Some d -> In d ds /\ answers_to n d = true.
Proof.
  induction ds as [|x ds IH]; simpl; [discriminate |].
  destruct (answers_to n x) eqn:Hx.
  - intros E; injection E as <-. auto.
  - intros E. destruct (IH E). auto.
Qed.

Lemma lookup_none (ds : list Distribution) (n : string) :
  get_distribution_for_name_in ds n = None <->
  forall d, In d ds -> answers_to n d = false.
Proof.
  induction ds as [|x ds IH]; simpl.
  - split; [intros _ d [] | reflexivity].
  - destruct (answers_to n x) eqn:Hx.
    + split; [discriminate |]. intros H. rewrite (H x) in Hx by now left.
      discriminate.
    + rewrite IH. split.
      * intros H d [<- | Hd]; auto.
      * intros H d Hd. apply H. now right.
Qed.

Lemma answers_to_compared (n : string) (d : Distribution) :
  answers_to n d = true -> In n (compared_names d).
Proof.
  unfold answers_to, compared_names. intros H.
  apply orb_true_iff in H as [H | H]; [apply orb_true_iff in H as [H | H] |];
    apply String.eqb_eq in H; subst; simpl; auto.
Qed.

Lemma one_answer_spec (ds : list Distribution) :
  one_answer ds = true ->
  forall n d d', In d ds -> In d' ds ->
                 answers_to n d = true -> answers_to n d' = true -> d' = d.
Proof.
  unfold one_answer. intros H n d d' Hd Hd' Hn Hn'.
  rewrite forallb_forall in H. specialize (H d Hd).
  rewrite forallb_forall in H. specialize (H d' Hd').
  apply orb_true_iff in H as [H | H].
  - unfold same_descriptor in H.
    destruct (Distribution_eq_dec d' d); [assumption | discriminate].
  - apply negb_true_iff in H.
    assert (Hex : existsb (fun n => answers_to n d') (compared_names d) = true).
    { apply existsb_exists. exists n. split; [now apply answers_to_compared | exact Hn']. }
    congruence.
Qed.

Lemma distributions_one_answer : one_answer distributions = true.
Proof. vm_compute. reflexivity. Qed.

End LookupOrder.

(** X1. The result of a lookup does not depend on the order in which the
    set of descriptors is gone through, for any name at all. *)
Theorem lookup_order_independent (ds : list Distribution) (n : string) :
  Permutation distributions ds ->
  get_distribution_for_name_in ds n = get_distribution_for_name_in distributions n.
Proof.
  intros Hperm.
  assert (Hto : forall x, In x distributions -> In x ds)
    by (intros x; now apply Permutation_in).
  assert (Hback : forall x, In x ds -> In x distributions)
    by (intros x; apply Permutation_in; now apply Permutation_sym).
  destruct (get_distribution_for_name_in distributions n) as [d |] eqn:E.
  - apply lookup_some in E as [Hd Hn].
    apply lookup_only_match; auto.
    intros d' Hd' Hn'.
    apply (one_answer_spec distributions distributions_one_answer n d d'); auto.
  - apply lookup_none. intros d Hd.
    rewrite lookup_none in E. auto.
Qed.

Lemma lookup_order_independent_witness :
  Permutation distributions (rev distributions)
  /\ get_distribution_for_name_in (rev distributions) "half_cauchy"
     = get_distribution_for_name_in distributions "half_cauchy".
Proof.
  split; [apply Permutation_rev |].
  exact (lookup_order_independent (rev distributions) "half_cauchy"
           (Permutation_rev distributions)).
Defined.

(** X2. A lookup returns a descriptor of the collection that bears the
    name as canonical name, runtime name or source alias; it returns
    nothing exactly when no descriptor bears it. *)
Theorem lookup_found_or_absent (ds : list Distribution) (n : string) :
  (forall d, get_distribution_for_name_in ds n = Some d ->
             In d ds /\ (name d = n \/ python_name d = n \/ foppl_name d = n))
  /\ (get_distribution_for_name_in ds n = None <->
      forall d, In d ds -> name d <> n /\ python_name d <> n /\ foppl_name d <> n).
Proof.
  assert (Hno : forall d, answers_to n d = false <->
                          name d <> n /\ python_name d <> n /\ foppl_name d <> n).
  { intros d. unfold answers_to. rewrite !orb_false_iff, !String.eqb_neq. tauto. }
  split.
  - intros d E. apply lookup_some in E as [Hd Hn]. split; [exact Hd |].
    unfold answers_to in Hn. rewrite !orb_true_iff, !String.eqb_eq in Hn. tauto.
  - rewrite lookup_none. split; intros H d Hd; apply Hno; auto.
Qed.

(** X3. [get_result_type] on a name of a catalogue descriptor is the
    sample type of that descriptor, in every iteration order; on a name no
    descriptor bears it is [AnyType]. *)
Theorem result_type_of_name
    (ds : list Distribution) (n : string) (args : list code_type) :
  Permutation distributions ds ->
  (forall d, In d ds -> is_name_of n d ->
             get_result_type_in ds n args = get_sample_type d args)
  /\ ((forall d, In d ds -> answers_to n d = false) ->
      get_result_type_in ds n args = AnyType).
Proof.
  intros Hperm. unfold get_result_type_in. split.
  - intros d Hd Hn.
    assert (Hback : forall x, In x ds -> In x distributions)
      by (intros x; apply Permutation_in; now apply Permutation_sym).
    rewrite (lookup_only_match ds n d Hd (is_name_of_answers n d Hn)).
    + reflexivity.
    + intros d' Hd' Hans.
      apply (unambiguous_spec distributions distributions_unambiguous d n d'); auto.
  - intros Hnone. apply lookup_none in Hnone. now rewrite Hnone.
Qed.

Lemma result_type_of_name_witness :
  Permutation distributions (rev distributions)
  /\ In Dirichlet (rev distributions)
  /\ is_name_of "dirichlet" Dirichlet
  /\ get_result_type_in (rev distributions) "dirichlet" [ListType FloatType (Some 5)]
     = get_sample_type Dirichlet [ListType FloatType (Some 5)].
Proof.
  assert (Hperm : Permutation distributions (rev distributions))
    by apply Permutation_rev.
  assert (Hin : In Dirichlet (rev distributions)) by (simpl; tauto).
  assert (Hname : is_name_of "dirichlet" Dirichlet)
    by (right; right; split; [reflexivity | discriminate]).
  split; [exact Hperm | split; [exact Hin | split; [exact Hname |]]].
  exact (proj1 (result_type_of_name (rev distributions) "dirichlet"
                  [ListType FloatType (Some 5)] Hperm) Dirichlet Hin Hname).
Defined.

Section Maps.

Lemma Permutation_filter' {A} (p : A -> bool) (l l' : list A) :
  Permutation l l' -> Permutation (filter p l) (filter p l').
Proof.
  induction 1 as [| x l l' _ IH | x y l | l l' l'' _ IH1 _ IH2]; simpl.
  - constructor.
  - destruct (p x); [now constructor | exact IH].
  - destruct (p x), (p y); try apply Permutation_refl;
      [apply perm_swap | ..].
  - now apply Permutation_trans with (filter p l').
Qed.

Lemma catalogue_names_not_empty :
  forallb (fun d => negb (String.eqb (name d) "")) distributions = true.
Proof. vm_compute. reflexivity. Qed.

Lemma catalogue_all_aliases_distinct : NoDup (map foppl_name distributions).
Proof.
  vm_compute.
  repeat (constructor; [simpl; intros H; repeat destruct H as [H | H];
                        try discriminate H; try contradiction |]).
  constructor.
Qed.

Lemma catalogue_aliases_distinct :
  NoDup (map foppl_name
           (filter (fun d => negb (String.eqb (foppl_name d) "")) distributions)).
Proof.
  vm_compute.
  repeat (constructor; [simpl; intros H; repeat destruct H as [H | H];
                        try discriminate H; try contradiction |]).
  constructor.
Qed.

End Maps.

(** X4. [foppl_distributions_map], in every iteration order: sixteen
    entries under pairwise different, non-empty keys, and every key looks
    up to the descriptor it is mapped to. *)
Theorem alias_map_agrees_with_lookup (ds : list Distribution) :
  Permutation distributions ds ->
  length (foppl_distributions_map_in ds) = 16
  /\ NoDup (map fst (foppl_distributions_map_in ds))
  /\ ~ In "" (map fst (foppl_distributions_map_in ds))
  /\ forall k d, In (k, d) (foppl_distributions_map_in ds) ->
                 get_distribution_for_name_in ds k = Some d.
Proof.
  intros Hperm. unfold foppl_distributions_map_in.
  set (p := fun d => negb (String.eqb (foppl_name d) "")).
  assert (Hf : Permutation (filter p distributions) (filter p ds))
    by now apply Permutation_filter'.
  assert (Hkeys : map fst (map (fun d => (foppl_name d, d)) (filter p ds))
                  = map foppl_name (filter p ds))
    by (rewrite map_map; reflexivity).
  rewrite Hkeys. repeat split.
  - rewrite length_map, <- (Permutation_length Hf). reflexivity.
  - apply (Permutation_NoDup (Permutation_map foppl_name Hf)).
    exact catalogue_aliases_distinct.
  - intros Hin. apply in_map_iff in Hin as [d [Hd Hin]].
    apply filter_In in Hin as [_ Hp]. unfold p in Hp.
    rewrite Hd in Hp. discriminate.
  - intros k d Hin. apply in_map_iff in Hin as [d' [E Hin]].
    injection E as <- <-. apply filter_In in Hin as [Hd Hp].
    assert (Hback : forall x, In x ds -> In x distributions)
      by (intros x; apply Permutation_in; now apply Permutation_sym).
    assert (Hname : is_name_of (foppl_name d') d').
    { right; right. split; [reflexivity |].
      unfold p in Hp. apply negb_true_iff in Hp. now apply String.eqb_neq. }
    apply lookup_only_match; [exact Hd | now apply is_name_of_answers |].
    intros x Hx Hans.
    apply (unambiguous_spec distributions distributions_unambiguous d'
             (foppl_name d') x); auto.
Qed.

Lemma alias_map_agrees_with_lookup_witness :
  Permutation distributions (rev distributions)
  /\ length (foppl_distributions_map_in (rev distributions)) = 16.
Proof.
  split; [apply Permutation_rev |].
  exact (proj1 (alias_map_agrees_with_lookup (rev distributions)
                  (Permutation_rev distributions))).
Defined.

(** X5. [distributions_map], in every iteration order: its filter on the
    canonical name drops no descriptor, so all seventeen are mapped and
    the empty source alias is a key, mapped to [LogGamma]. *)
Theorem runtime_map_keeps_empty_alias (ds : list Distribution) :
  Permutation distributions ds ->
  distributions_map_in ds = map (fun d => (foppl_name d, python_name d)) ds
  /\ length (distributions_map_in ds) = 17
  /\ NoDup (map fst (distributions_map_in ds))
  /\ In ("", "LogGamma") (distributions_map_in ds).
Proof.
  intros Hperm. unfold distributions_map_in.
  assert (Hall : filter (fun d => negb (String.eqb (name d) "")) ds = ds).
  { apply forallb_filter_id. apply forallb_forall. intros d Hd.
    pose proof catalogue_names_not_empty as H. rewrite forallb_forall in H.
    apply H. apply Permutation_in with ds; [now apply Permutation_sym | exact Hd]. }
  rewrite Hall. repeat split.
  - rewrite length_map, <- (Permutation_length Hperm). reflexivity.
  - rewrite map_map. simpl.
    apply (Permutation_NoDup (Permutation_map foppl_name Hperm)).
    exact catalogue_all_aliases_distinct.
  - change ("", "LogGamma")
      with ((fun d => (foppl_name d, python_name d)) LogGamma).
    apply in_map. apply (Permutation_in _ Hperm). simpl; tauto.
Qed.

Lemma runtime_map_keeps_empty_alias_witness :
  Permutation distributions distributions
  /\ In ("", "LogGamma") (distributions_map_in distributions).
Proof.
  split; [apply Permutation_refl |].
  exact (proj2 (proj2 (proj2 (runtime_map_keeps_empty_alias distributions
                                (Permutation_refl distributions))))).
Defined.

(* ===================================================================== *)
(** ** Further properties: the shape probe *)
(* ===================================================================== *)

Section ProbeFailure.

Lemma lengths_of_lists (rows : list py_value) :
  Forall is_a_list rows -> exists lens, Forall2 list_length rows lens.
Proof.
  induction 1 as [|v rows Hv _ [lens IH]].
  - exists []; constructor.
  - destruct Hv as [items]. exists (length items :: lens).
    constructor; [constructor | exact IH].
Qed.

Lemma lengths_of_vectors (items : list CodeObject) :
  Forall vector_shaped items ->
  exists lens, Forall2 vector_shaped_length items lens.
Proof.
  induction 1 as [|v items [n Hv] _ [lens IH]].
  - exists []; constructor.
  - exists (n :: lens). constructor; assumption.
Qed.

Lemma max_of_non_empty (n : nat) (ns : list nat) :
  exists m, Py.max (n :: ns) = Returns m.
Proof. simpl. eauto. Qed.

Lemma size_of_rows_non_empty (row : py_value) (rows : list py_value) :
  exists n, size_of_rows (row :: rows) = Returns (Some n).
Proof.
  unfold size_of_rows. destruct (forallb is_list (row :: rows)) eqn:Hall;
    [| eauto].
  apply forallb_is_list in Hall.
  destruct (lengths_of_lists _ Hall) as [lens Hlens].
  pose proof Hlens as Hcomp. apply comprehension_len in Hcomp. rewrite Hcomp.
  inversion Hlens as [| ? n ? lens' _ _]; subst. simpl. eauto.
Qed.

Lemma probe_raises_inv (arg : CodeObject) (e : exn) :
  _get_support_size arg = Raises e ->
  e = ValueError /\ exists ty, arg = CodeValue (PyList []) ty.
Proof.
  destruct arg as [[z | text | [| row rows]] ty | [| i items] ty
                  | [| row rows] ty | ty];
    try (simpl; discriminate).
  - simpl. intros E. injection E as <-. eauto.
  - simpl. destruct (size_of_rows_non_empty row rows) as [n ->]. discriminate.
  - unfold _get_support_size.
    destruct (forallb _is_vector (i :: items)) eqn:Hall; [| discriminate].
    apply forallb_is_vector in Hall.
    destruct (lengths_of_vectors _ Hall) as [lens Hlens].
    rewrite (comprehension_code_len _ _ Hlens).
    inversion Hlens as [| ? n ? lens' _ _]; subst. simpl. discriminate.
  - unfold _get_support_size.
    destruct (size_of_rows_non_empty row rows) as [n ->]. discriminate.
Qed.

End ProbeFailure.

(** X6. The shape probe raises on one kind of argument only, the literal
    whose value is the empty list, and what it raises is [ValueError]; on
    every other argument it returns a size or [None]. *)
Theorem probe_fails_only_on_empty_literal (arg : CodeObject) :
  (forall e, _get_support_size arg = Raises e <->
             e = ValueError /\ exists ty, arg = CodeValue (PyList []) ty)
  /\ ((forall ty, arg <> CodeValue (PyList []) ty) ->
      exists r, _get_support_size arg = Returns r).
Proof.
  split.
  - intros e. split; [apply probe_raises_inv |].
    intros [-> [ty ->]]. reflexivity.
  - intros Hne. destruct (_get_support_size arg) as [r | e] eqn:E; [eauto |].
    apply probe_raises_inv in E as [_ [ty ->]]. now contradiction (Hne ty).
Qed.

(** X7. [get_support_size] raises [IndexError] exactly when the argument
    list does not reach the argument it probes: when it is empty, or for
    the count-like descriptor shorter than two. *)
Theorem support_size_index_error (self : Distribution) (args : list CodeObject) :
  get_support_size self args = Raises IndexError <->
  length args <= designated_argument self.
Proof.
  unfold get_support_size, designated_argument, subscript.
  assert (Hprobe : forall i,
            obind match nth_error args i with
                  | Some a => Returns a
                  | None => Raises IndexError
                  end _get_support_size = Raises IndexError <->
            length args <= i).
  { intros i. rewrite <- nth_error_None.
    destruct (nth_error args i) as [a |]; simpl.
    - split; [| discriminate]. intros E.
      apply probe_raises_inv in E as [E _]. discriminate.
    - tauto. }
  destruct (klass self); apply Hprobe.
Qed.

(* ===================================================================== *)
(** ** Further properties: indentation *)
(* ===================================================================== *)

Section Indentation.

Lemma string_app_assoc (s t u : string) : (s ++ t) ++ u = s ++ (t ++ u).
Proof. induction s as [|c s IH]; simpl; [reflexivity | now rewrite IH]. Qed.

Lemma replace_newline_app (by_ s t : string) :
  replace_newline by_ (s ++ t) = replace_newline by_ s ++ replace_newline by_ t.
Proof.
  induction s as [|c s IH]; simpl; [reflexivity |].
  destruct (Ascii.eqb c newline); rewrite IH; [| reflexivity].
  now rewrite string_app_assoc.
Qed.

Lemma contains_newline_app (s t : string) :
  contains_newline (s ++ t) = contains_newline s || contains_newline t.
Proof.
  induction s as [|c s IH]; simpl; [reflexivity |].
  now rewrite IH, orb_assoc.
Qed.

Lemma spaces_no_newline (n : nat) : contains_newline (spaces n) = false.
Proof. induction n; simpl; auto. Qed.

Lemma replace_newline_single_line (by_ s : string) :
  contains_newline s = false -> replace_newline by_ s = s.
Proof.
  induction s as [|c s IH]; simpl; [reflexivity |].
  destruct (Ascii.eqb c newline); simpl; [discriminate |].
  intros H. now rewrite IH.
Qed.

Lemma spaces_add (a b : nat) : spaces b ++ spaces a = spaces (a + b).
Proof.
  rewrite Nat.add_comm. induction b; simpl; [reflexivity |]. now rewrite IHb.
Qed.

Lemma contains_newline_replace (x s : string) :
  contains_newline (replace_newline (String newline x) s) = contains_newline s.
Proof.
  induction s as [|c s IH]; simpl; [reflexivity |].
  destruct (Ascii.eqb c newline) eqn:E; simpl.
  - reflexivity.
  - now rewrite E, IH.
Qed.

Lemma contains_newline_indented (n : nat) (s : string) :
  contains_newline (indented n s) = contains_newline s.
Proof. apply contains_newline_replace. Qed.

Lemma replace_replace (x y s : string) :
  contains_newline x = false ->
  replace_newline (String newline y) (replace_newline (String newline x) s)
  = replace_newline (String newline (y ++ x)) s.
Proof.
  intros Hx. induction s as [|c s IH]; simpl; [reflexivity |].
  destruct (Ascii.eqb c newline) eqn:E; simpl.
  - rewrite replace_newline_app, IH.
    rewrite (replace_newline_single_line _ x Hx).
    now rewrite !string_app_assoc.
  - now rewrite E, IH.
Qed.

Lemma indented_indented (a b : nat) (s : string) :
  indented b (indented a s) = indented (a + b) s.
Proof.
  unfold indented. change (nl ++ spaces a) with (String newline (spaces a)).
  change (nl ++ spaces b) with (String newline (spaces b)).
  rewrite replace_replace by apply spaces_no_newline.
  now rewrite spaces_add.
Qed.

End Indentation.

(** X8. Indentation steps add up: a text indented by [a] and then by [b],
    as when a construct is nested in another, is the text indented by
    [a + b]; indenting keeps a one-line text as it is and never makes a
    one-line text of a longer one. *)
Theorem indentation_accumulates (a b : nat) (s : string) :
  indented b (indented a s) = indented (a + b) s
  /\ contains_newline (indented a s) = contains_newline s
  /\ (contains_newline s = false -> indented a s = s).
Proof.
  split; [apply indented_indented |].
  split; [apply contains_newline_indented |].
  apply replace_newline_single_line.
Qed.

Lemma indentation_accumulates_witness :
  contains_newline "(f a b)" = false /\ indented 6 "(f a b)" = "(f a b)".
Proof.
  split; [reflexivity |].
  exact (proj2 (proj2 (indentation_accumulates 6 2 "(f a b)")) eq_refl).
Defined.

(** X9. A definition is rendered on one line exactly when the rendering
    of its value is one line; otherwise the value goes, indented, on a
    line of its own. *)
Theorem visit_def_layout
    (name : target) (value : AstNode) (h h' : store) (s : string) :
  visit value h = (h', Returns s) ->
  dump (AstDef name value) h
  = (h', Returns (if contains_newline s
                  then "(def " ++ visit_name name ++ nl ++ "  " ++ indented 2 s ++ ")"
                  else "(def " ++ visit_name name ++ " " ++ s ++ ")")).
Proof.
  intros Hvalue. unfold dump. simpl visit.
  unfold visit_def, visit_indent, bind, ret. rewrite Hvalue.
  fold (indented 2 s). rewrite contains_newline_indented.
  destruct (contains_newline s) eqn:E; simpl; [reflexivity |].
  unfold indented. now rewrite replace_newline_single_line.
Qed.

Lemma visit_def_layout_witness :
  visit (AstBody [AstSymbol "a"; AstSymbol "b"]) one_parameter
  = (one_parameter, Returns ("(do" ++ nl ++ "  a" ++ nl ++ "  b)"))
  /\ dump (AstDef (NameStr "x") (AstBody [AstSymbol "a"; AstSymbol "b"])) one_parameter
     = (one_parameter,
        Returns ("(def x" ++ nl ++ "  (do" ++ nl ++ "    a" ++ nl ++ "    b))")).
Proof.
  split; [reflexivity |].
  exact (visit_def_layout (NameStr "x") (AstBody [AstSymbol "a"; AstSymbol "b"])
           one_parameter one_parameter _ eq_refl).
Defined.

(* ===================================================================== *)
(** ** Further properties: when a rendering returns and what it raises *)
(* ===================================================================== *)

Section Returns.

Lemma returns_ret {A} (a : A) : returns (ret a).
Proof. intros h; now exists h, a. Qed.

Lemma returns_read (r : ref) : returns (read r).
Proof. intros h; now exists h, (h r). Qed.

Lemma returns_modify (f : store -> store) : returns (modify f).
Proof. intros h; now exists (f h), tt. Qed.

Lemma returns_bind {A B} (c : M A) (k : A -> M B) :
  returns c -> (forall a, returns (k a)) -> returns (bind c k).
Proof.
  intros Hc Hk h. destruct (Hc h) as [h' [a E]].
  unfold bind. rewrite E. apply Hk.
Qed.

Lemma returns_for_each {A B} (f : A -> M B) (xs : list A) :
  Forall (fun x => returns (f x)) xs -> returns (for_each f xs).
Proof.
  induction 1 as [|x xs Hx _ IH]; simpl.
  - apply returns_ret.
  - apply returns_bind; [exact Hx | intros y].
    apply returns_bind; [exact IH | intros ys]. apply returns_ret.
Qed.

Lemma returns_for_each_zip {A B C} (f : A -> B -> M C)
    (xs : list A) (ys : list B) :
  Forall (fun y => forall x, returns (f x y)) ys ->
  returns (for_each_zip f xs ys).
Proof.
  intros Hys; revert xs.
  induction Hys as [|y ys Hy _ IH]; intros xs; simpl.
  - apply returns_ret.
  - destruct xs as [|x xs]; [apply returns_ret |].
    apply returns_bind; [apply Hy | intros z].
    apply returns_bind; [apply IH | intros zs]. apply returns_ret.
Qed.

Lemma visit_import_returns
    (module_name : string) (names : option (list string)) (alias : option string) :
  ~ failing_import (AstImport module_name names alias) ->
  exists s, visit_import module_name names alias = Returns s.
Proof.
  unfold visit_import. intros Hok.
  destruct alias as [a |], names as [[| first rest] |]; simpl in *;
    try (eexists; reflexivity); try tauto.
  - destruct rest; [destruct (String.eqb first "*") |]; eexists; reflexivity.
Qed.

Lemma visit_import_raises
    (module_name : string) (names : option (list string)) (alias : option string)
    (e : exn) :
  visit_import module_name names alias = Raises e ->
  e = IndexError /\ failing_import (AstImport module_name names alias).
Proof.
  unfold visit_import.
  destruct alias as [a |], names as [[| first rest] |]; simpl;
    try discriminate.
  - intros E; injection E as <-. auto.
  - destruct rest; [destruct (String.eqb first "*") |]; discriminate.
Qed.

Ltac returns_step :=
  match goal with
  | H : returns ?c |- returns ?c => exact H
  | |- returns (ret _) => apply returns_ret
  | |- returns (read _) => apply returns_read
  | |- returns (modify _) => apply returns_modify
  | |- returns (bind _ _) => apply returns_bind; [| intros ?]
  | |- returns (visit_indent _ _ _) => unfold visit_indent
  | |- returns (for_each _ _) =>
      apply returns_for_each;
      match goal with
      | H : Forall _ ?xs |- Forall _ ?xs =>
          apply (Forall_impl _ (P := fun c => returns (visit c)));
          [intros ? ? | exact H]
      end
  | |- returns (for_each_zip _ _ _) =>
      apply returns_for_each_zip;
      match goal with
      | H : Forall _ ?xs |- Forall _ ?xs =>
          apply (Forall_impl _ (P := fun c => returns (visit c)));
          [intros ? ? ? | exact H]
      end
  | |- returns (match ?x with _ => _ end) => destruct x
  end.

Lemma renderable_returns (node : AstNode) : renderable node -> returns (visit node).
Proof.
  induction node as [node IH] using AstNode_children_ind.
  intros Hok. destruct Hok as [node Hsup Himp Hkids'].
  assert (Hkids : Forall (fun c => returns (visit c)) (children node)).
  { rewrite Forall_forall in *. auto. }
  clear IH Hkids'.
  destruct node; simpl in Hkids; split_children; simpl visit;
    try (unfold visit_attribute, visit_binary, visit_body, visit_call,
           visit_compare, visit_def, visit_for, visit_function, visit_if,
           visit_let, visit_list_for, visit_observe, visit_return,
           visit_sample, visit_slice, visit_subscript, visit_unary,
           visit_vector, visit_while, visit_optional, visit_indent_optional;
         solve [repeat returns_step]).
  - destruct (visit_import_returns _ _ _ Himp) as [s E].
    rewrite E. intros h. now exists h, s.
  - contradiction Hsup. exact I.
Qed.

End Returns.

Section RaisesOnly.

Variable ok : exn -> Prop.

Lemma raises_only_ret {A} (a : A) : raises_only ok (ret a).
Proof. intros h h' e E. discriminate. Qed.

Lemma raises_only_read (r : ref) : raises_only ok (read r).
Proof. intros h h' e E. discriminate. Qed.

Lemma raises_only_modify (f : store -> store) : raises_only ok (modify f).
Proof. intros h h' e E. discriminate. Qed.

Lemma raises_only_raise {A} (e : exn) : ok e -> raises_only ok (@raise A e).
Proof. intros He h h' e' E. injection E as _ <-. exact He. Qed.

Lemma raises_only_bind {A B} (c : M A) (k : A -> M B) :
  raises_only ok c -> (forall a, raises_only ok (k a)) ->
  raises_only ok (bind c k).
Proof.
  intros Hc Hk h h' e. unfold bind.
  destruct (c h) as [h1 [a | e1]] eqn:E.
  - apply Hk.
  - intros E'; injection E' as _ <-. now apply (Hc h h1).
Qed.

Lemma raises_only_for_each {A B} (f : A -> M B) (xs : list A) :
  Forall (fun x => raises_only ok (f x)) xs -> raises_only ok (for_each f xs).
Proof.
  induction 1 as [|x xs Hx _ IH]; simpl.
  - apply raises_only_ret.
  - apply raises_only_bind; [exact Hx | intros y].
    apply raises_only_bind; [exact IH | intros ys]. apply raises_only_ret.
Qed.

Lemma raises_only_for_each_zip {A B C} (f : A -> B -> M C)
    (xs : list A) (ys : list B) :
  Forall (fun y => forall x, raises_only ok (f x y)) ys ->
  raises_only ok (for_each_zip f xs ys).
Proof.
  intros Hys; revert xs.
  induction Hys as [|y ys Hy _ IH]; intros xs; simpl.
  - apply raises_only_ret.
  - destruct xs as [|x xs]; [apply raises_only_ret |].
    apply raises_only_bind; [apply Hy | intros z].
    apply raises_only_bind; [apply IH | intros zs]. apply raises_only_ret.
Qed.

Hypothesis ok_internal : ok InternalError.
Hypothesis ok_index : ok IndexError.

Ltac raises_step :=
  match goal with
  | H : raises_only ok ?c |- raises_only ok ?c => exact H
  | |- raises_only ok (ret _) => apply raises_only_ret
  | |- raises_only ok (read _) => apply raises_only_read
  | |- raises_only ok (modify _) => apply raises_only_modify
  | |- raises_only ok (raise _) => apply raises_only_raise; assumption
  | |- raises_only ok (bind _ _) => apply raises_only_bind; [| intros ?]
  | |- raises_only ok (visit_indent _ _ _) => unfold visit_indent
  | |- raises_only ok (for_each _ _) =>
      apply raises_only_for_each;
      match goal with
      | H : Forall _ ?xs |- Forall _ ?xs =>
          apply (Forall_impl _ (P := fun c => raises_only ok (visit c)));
          [intros ? ? | exact H]
      end
  | |- raises_only ok (for_each_zip _ _ _) =>
      apply raises_only_for_each_zip;
      match goal with
      | H : Forall _ ?xs |- Forall _ ?xs =>
          apply (Forall_impl _ (P := fun c => raises_only ok (visit c)));
          [intros ? ? ? | exact H]
      end
  | |- raises_only ok (match ?x with _ => _ end) => destruct x
  end.

Lemma visit_raises_only (node : AstNode) : raises_only ok (visit node).
Proof.
  induction node as [node Hkids] using AstNode_children_ind.
  destruct node; simpl in Hkids; split_children; simpl visit;
    try (unfold visit_attribute, visit_binary, visit_body, visit_call,
           visit_compare, visit_def, visit_for, visit_function, visit_if,
           visit_let, visit_list_for, visit_observe, visit_return,
           visit_sample, visit_slice, visit_subscript, visit_unary,
           visit_vector, visit_while, visit_optional, visit_indent_optional;
         solve [repeat raises_step]).
  intros h h' e E. unfold lift in E. injection E as _ E.
  apply visit_import_raises in E as [-> _]. exact ok_index.
Qed.

End RaisesOnly.

(** X10. A tree in which every node has a rendering rule and no import
    has an alias with an empty list of names renders to a string, on
    every store. *)
Theorem dump_returns_on_renderable (node : AstNode) (h : store) :
  renderable node -> exists h' s, dump node h = (h', Returns s).
Proof. intros Hok. exact (renderable_returns node Hok h). Qed.

Lemma dump_returns_on_renderable_witness :
  renderable variadic_function
  /\ exists h' s, dump variadic_function one_parameter = (h', Returns s).
Proof.
  assert (Hok : renderable variadic_function).
  { apply renderable_node; simpl; try tauto.
    repeat constructor; simpl; tauto. }
  split; [exact Hok |].
  exact (dump_returns_on_renderable variadic_function one_parameter Hok).
Defined.

(** X11. A rendering raises nothing but the internal error of a node
    without a rule and the [IndexError] of an import with an alias and an
    empty list of names. *)
Theorem dump_raises_only (node : AstNode) (h h' : store) (e : exn) :
  dump node h = (h', Raises e) -> e = InternalError \/ e = IndexError.
Proof.
  apply (visit_raises_only (fun e => e = InternalError \/ e = IndexError)); auto.
Qed.

Lemma dump_raises_only_witness :
  dump (AstImport "m" (Some []) (Some "a")) one_parameter
  = (one_parameter, Raises IndexError)
  /\ (IndexError = InternalError \/ IndexError = IndexError).
Proof.
  split; [reflexivity |].
  exact (dump_raises_only (AstImport "m" (Some []) (Some "a"))
           one_parameter one_parameter IndexError eq_refl).
Defined.

(* ===================================================================== *)
(** ** Further properties: the store of parameter lists *)
(* ===================================================================== *)

Section Markers.

Lemma extends_by_markers_refl (h : store) : extends_by_markers h h.
Proof. intros r; exists []. split; [now rewrite app_nil_r | constructor]. Qed.

Lemma extends_by_markers_trans (h1 h2 h3 : store) :
  extends_by_markers h1 h2 -> extends_by_markers h2 h3 ->
  extends_by_markers h1 h3.
Proof.
  intros H12 H23 r.
  destruct (H12 r) as [s1 [E1 M1]], (H23 r) as [s2 [E2 M2]].
  exists (s1 ++ s2)%list. split.
  - now rewrite E2, E1, app_assoc.
  - apply Forall_app; auto.
Qed.

Lemma extends_by_markers_append (r : ref) (v : string) (h : store) :
  extends_by_markers h (append r ("& " ++ v) h).
Proof.
  intros r'. unfold append. destruct (Nat.eqb_spec r' r) as [-> |].
  - exists ["& " ++ v]. split; [reflexivity |].
    constructor; [now exists v | constructor].
  - exists []. split; [now rewrite app_nil_r | constructor].
Qed.

End Markers.

(** X12. Whatever the tree, and whether the rendering returns or raises,
    every list object is afterwards what it was before with zero or more
    variadic markers appended: nothing is removed, replaced or reordered,
    and nothing but markers is added. *)
Theorem dump_only_appends_markers (node : AstNode) (h : store) (r : ref) :
  exists suffix,
    fst (dump node h) r = List.app (h r) suffix /\ Forall is_marker suffix.
Proof.
  apply (visit_respects extends_by_markers extends_by_markers_refl
           extends_by_markers_trans (fun _ => True)).
  - intros n _. rewrite Forall_forall. auto.
  - intros r' v body _ h'. apply extends_by_markers_append.
  - exact I.
Qed.

(** X13. Rendering a tree none of whose function nodes has a variadic
    parameter leaves the store as it was, and rendering it again gives
    the same result. *)
Theorem dump_variadic_free_repeatable (node : AstNode) (h : store) :
  variadic_free node ->
  fst (dump node h) = h /\ dump node (fst (dump node h)) = dump node h.
Proof. intros Hfree. exact (visit_variadic_free node Hfree h). Qed.

Lemma dump_variadic_free_repeatable_witness :
  variadic_free (AstFunction 0 None (AstReturn (AstSymbol "x")))
  /\ fst (dump (AstFunction 0 None (AstReturn (AstSymbol "x"))) one_parameter)
     = one_parameter.
Proof.
  assert (Hfree : variadic_free (AstFunction 0 None (AstReturn (AstSymbol "x")))).
  { apply variadic_free_node; [simpl; tauto |].
    repeat (constructor; [apply variadic_free_node; [simpl; tauto |] |]);
      constructor. }
  split; [exact Hfree |].
  exact (proj1 (dump_variadic_free_repeatable _ one_parameter Hfree)).
Defined.

(** X14. A function node whose body has no variadic function in it: the
    rendering lists the parameters of the node, followed by the marked
    variadic parameter when there is one, and leaves that marker in the
    parameter list of the node. *)
Theorem visit_function_form
    (r : ref) (vararg : option string) (body : AstNode) (h : store) (b : string) :
  let h1 := match vararg with
            | Some v => append r ("& " ++ v) h
            | None => h
            end in
  variadic_free body ->
  snd (visit body h1) = Returns b ->
  dump (AstFunction r vararg body) h
  = (h1, Returns ("(fn [" ++ join " " (h1 r) ++ "]" ++ nl ++ "  "
                  ++ indented 2 b ++ ")"))
  /\ h1 r = List.app (h r) match vararg with
                           | Some v => ["& " ++ v]
                           | None => []
                           end.
Proof.
  intros h1 Hfree Hbody.
  destruct (visit_variadic_free body Hfree h1) as [Hsame _].
  assert (E : visit body h1 = (h1, Returns b)).
  { destruct (visit body h1) as [h2 o]; simpl in *. now subst. }
  split.
  - unfold dump. simpl visit. unfold visit_function.
    destruct vararg as [v |]; subst h1.
    + rewrite bind_modify. unfold visit_indent, bind, read, ret.
      rewrite E. reflexivity.
    + unfold visit_indent, bind, read, ret. rewrite E. reflexivity.
  - destruct vararg as [v |]; subst h1.
    + unfold append. now rewrite Nat.eqb_refl.
    + now rewrite app_nil_r.
Qed.

Lemma visit_function_form_witness :
  variadic_free (AstSymbol "x")
  /\ snd (visit (AstSymbol "x") (append 0 ("& " ++ "rest") one_parameter))
     = Returns "x"
  /\ snd (dump variadic_function one_parameter)
     = Returns ("(fn [x & rest]" ++ nl ++ "  x)").
Proof.
  assert (Hfree : variadic_free (AstSymbol "x")).
  { apply variadic_free_node; [simpl; tauto | constructor]. }
  split; [exact Hfree | split; [reflexivity |]].
  exact (f_equal snd
           (proj1 (visit_function_form 0 (Some "rest") (AstSymbol "x")
                     one_parameter "x" Hfree eq_refl))).
Defined.

(* ===================================================================== *)
(** ** Further properties: the rules of the node kinds *)
(* ===================================================================== *)

Section Rules.

Lemma for_each_zip_firstn {A B C} (f : A -> B -> M C) (xs : list A) (ys : list B) :
  for_each_zip f xs ys
  = for_each_zip f (firstn (length ys) xs) (firstn (length xs) ys).
Proof.
  revert xs; induction ys as [|y ys IH]; intros [|x xs]; simpl; try reflexivity.
  now rewrite <- IH.
Qed.

Lemma for_each_renders (nodes : list AstNode) (texts : list string) :
  Forall2 renders nodes texts ->
  forall h, for_each visit nodes h = (h, Returns texts).
Proof.
  induction 1 as [|node text nodes texts Hnode _ IH]; intros h; simpl.
  - reflexivity.
  - unfold bind. rewrite Hnode, IH. reflexivity.
Qed.


End Rules.

(** X15. A [let] renders as many bindings as the shorter of its two lists
    has entries: the targets and the sources beyond that are dropped, the
    sources unrendered. *)
Theorem visit_let_truncates
    (targets : list target) (sources : list AstNode) (body : AstNode) (h : store) :
  dump (AstLet targets sources body) h
  = dump (AstLet (firstn (length sources) targets)
                 (firstn (length targets) sources) body) h.
Proof.
  unfold dump. simpl visit. unfold visit_let.
  now rewrite for_each_zip_firstn.
Qed.

(** X16. The loop forms render their body and leave it out of the text:
    the rendering of a [for] statement and of a list comprehension holds
    the target and the source only, whatever the body renders to. *)
Theorem loops_drop_body
    (tgt : target) (source body : AstNode) (h h1 h2 : store) (s b : string) :
  visit source h = (h1, Returns s) ->
  visit body h1 = (h2, Returns b) ->
  dump (AstFor tgt source body) h
  = (h2, Returns ("(doseq [" ++ visit_name tgt ++ "]" ++ nl ++ "  " ++ s ++ ")"))
  /\ dump (AstListFor tgt source body) h
     = (h2, Returns ("(for " ++ visit_name tgt ++ nl ++ "  " ++ s ++ ")")).
Proof.
  intros Hsource Hbody. unfold dump. simpl visit.
  unfold visit_for, visit_list_for, visit_indent, bind, ret.
  rewrite Hsource, Hbody. split; reflexivity.
Qed.

Lemma loops_drop_body_witness :
  visit (AstSymbol "xs") one_parameter = (one_parameter, Returns "xs")
  /\ visit (AstCall (AstSymbol "print") [AstSymbol "x"] []) one_parameter
     = (one_parameter, Returns "(print x)")
  /\ dump (AstFor (NameStr "x") (AstSymbol "xs")
             (AstCall (AstSymbol "print") [AstSymbol "x"] [])) one_parameter
     = (one_parameter, Returns ("(doseq [x]" ++ nl ++ "  xs)")).
Proof.
  split; [reflexivity | split; [reflexivity |]].
  exact (proj1 (loops_drop_body (NameStr "x") (AstSymbol "xs")
                  (AstCall (AstSymbol "print") [AstSymbol "x"] [])
                  one_parameter one_parameter one_parameter "xs" "(print x)"
                  eq_refl eq_refl)).
Defined.

(** X17. An import raises, and then [IndexError], exactly when it has an
    alias and an empty list of imported names.  With an alias and a
    non-empty list only the first imported name is rendered. *)
Theorem visit_import_failure
    (module_name : string) (names : option (list string)) (alias : option string) :
  (forall e, visit_import module_name names alias = Raises e <->
             e = IndexError /\ (exists a, alias = Some a) /\ names = Some [])
  /\ (forall a first rest,
         visit_import module_name (Some (first :: rest)) (Some a)
         = Returns ("(require '" ++ module_name ++ " [" ++ first ++ " :as "
                    ++ a ++ "])")).
Proof.
  split; [| intros a first rest; simpl;
            repeat (rewrite string_app_assoc; simpl); reflexivity].
  intros e. split.
  - intros E. apply visit_import_raises in E as [-> Hfail]. split; [reflexivity |].
    destruct alias as [a |], names as [[| first rest] |]; simpl in Hfail;
      try contradiction. eauto.
  - intros [-> [[a ->] ->]]. reflexivity.
Qed.

(** X18. A call of a function on arguments that render without touching
    the store: the function, then the arguments in order, then the keyword
    arguments in stored order, each as [:key value], separated by single
    spaces. *)
Theorem visit_call_rule
    (function : AstNode) (args : list AstNode) (keyword_args : list (string * string))
    (f : string) (texts : list string) :
  renders function f -> Forall2 renders args texts ->
  renders (AstCall function args keyword_args)
    ("(" ++ f ++ " " ++ join " " (List.app texts (map keyword_text keyword_args))
     ++ ")").
Proof.
  intros Hf Hargs h. simpl visit. unfold visit_call, bind, ret.
  rewrite Hf, (for_each_renders _ _ Hargs).
  destruct keyword_args as [| kv kws]; simpl; [| reflexivity].
  now rewrite app_nil_r.
Qed.

Lemma visit_call_rule_witness :
  renders (AstSymbol "f") "f"
  /\ Forall2 renders [AstSymbol "a"; AstSymbol "b"] ["a"; "b"]
  /\ renders (AstCall (AstSymbol "f") [AstSymbol "a"; AstSymbol "b"] [("k", "1")])
       "(f a b :k 1)".
Proof.
  assert (Hf : renders (AstSymbol "f") "f") by (intros h; reflexivity).
  assert (Hargs : Forall2 renders [AstSymbol "a"; AstSymbol "b"] ["a"; "b"]).
  { repeat constructor; intros h; reflexivity. }
  split; [exact Hf | split; [exact Hargs |]].
  exact (visit_call_rule (AstSymbol "f") [AstSymbol "a"; AstSymbol "b"]
           [("k", "1")] "f" ["a"; "b"] Hf Hargs).
Defined.

(** X19. A comparison of operands that render without touching the store:
    one operator gives the binary form; two equal operators one form of
    three operands; two different operators the conjunction of the two
    comparisons, the middle operand printed twice; and a third operand
    without a second operator is compared under the operator [None]. *)
Theorem visit_compare_rule
    (lhs rhs third : AstNode) (op : string) (second_op : option string)
    (l r t : string) :
  renders lhs l -> renders rhs r -> renders third t ->
  renders (AstCompare lhs op rhs second_op None)
    ("(" ++ op ++ " " ++ l ++ " " ++ r ++ ")")
  /\ renders (AstCompare lhs op rhs (Some op) (Some third))
       ("(" ++ op ++ " " ++ l ++ " " ++ r ++ " " ++ t ++ ")")
  /\ (forall op2, op2 <> op ->
        renders (AstCompare lhs op rhs (Some op2) (Some third))
          ("(and (" ++ op ++ " " ++ l ++ " " ++ r ++ ") (" ++ op2 ++ " " ++ r
           ++ " " ++ t ++ "))"))
  /\ renders (AstCompare lhs op rhs None (Some third))
       ("(and (" ++ op ++ " " ++ l ++ " " ++ r ++ ") (None " ++ r ++ " " ++ t
        ++ "))").
Proof.
  intros Hl Hr Ht. repeat split; try intros op2 Hne; intros h; simpl visit;
    unfold visit_compare, bind, ret; rewrite Hl, Hr; try rewrite Ht;
    try reflexivity.
  - now rewrite String.eqb_refl.
  - destruct (String.eqb_spec op op2) as [-> |]; [contradiction | reflexivity].
Qed.

Lemma visit_compare_rule_witness :
  renders (AstSymbol "a") "a" /\ renders (AstSymbol "b") "b"
  /\ renders (AstSymbol "c") "c"
  /\ renders (AstCompare (AstSymbol "a") "<" (AstSymbol "b") (Some "<=")
                (Some (AstSymbol "c")))
       "(and (< a b) (<= b c))".
Proof.
  assert (Ha : renders (AstSymbol "a") "a") by (intros h; reflexivity).
  assert (Hb : renders (AstSymbol "b") "b") by (intros h; reflexivity).
  assert (Hc : renders (AstSymbol "c") "c") by (intros h; reflexivity).
  split; [exact Ha | split; [exact Hb | split; [exact Hc |]]].
  apply (proj1 (proj2 (proj2 (visit_compare_rule (AstSymbol "a") (AstSymbol "b")
                                (AstSymbol "c") "<" None "a" "b" "c" Ha Hb Hc)))).
  discriminate.
Defined.


Section ListRules.

Lemma for_each_indent_renders (n : nat) (nodes : list AstNode) (texts : list string) :
  Forall2 renders nodes texts ->
  forall h, for_each (fun item => visit_indent visit item n) nodes h
            = (h, Returns (map (indented n) texts)).
Proof.
  induction 1 as [|node text nodes texts Hnode _ IH]; intros h; simpl.
  - reflexivity.
  - unfold visit_indent at 1. unfold bind, ret. rewrite Hnode, IH. reflexivity.
Qed.

Lemma for_each_zip_renders
    (targets : list target) (sources : list AstNode) (texts : list string) :
  Forall2 renders sources texts ->
  forall h,
    for_each_zip (fun tgt source => s <- visit_indent visit source 6 ;;
                                    ret (visit_name tgt ++ " " ++ s))
      targets sources h
    = (h, Returns (map binding_text (combine targets texts))).
Proof.
  intros Hs; revert targets.
  induction Hs as [|source text sources texts Hsource _ IH];
    intros [|tgt targets] h; simpl; try reflexivity.
  unfold visit_indent at 1. unfold bind, ret. rewrite Hsource.
  unfold bind, ret in IH. rewrite IH. reflexivity.
Qed.

End ListRules.

(** X21. A body of statements that render without touching the store:
    the statements, each indented by two, one to a line after [(do]; a
    vector of such items: the items separated by single spaces. *)
Theorem visit_body_rule (items : list AstNode) (texts : list string) :
  Forall2 renders items texts ->
  renders (AstBody items)
    ("(do" ++ nl ++ "  " ++ join (nl ++ "  ") (map (indented 2) texts) ++ ")")
  /\ renders (AstVector items) ("[" ++ join " " texts ++ "]").
Proof.
  intros Hitems. split; intros h; simpl visit.
  - unfold visit_body, bind, ret.
    now rewrite (for_each_indent_renders 2 _ _ Hitems).
  - unfold visit_vector, bind, ret.
    now rewrite (for_each_renders _ _ Hitems).
Qed.

Lemma visit_body_rule_witness :
  Forall2 renders [AstSymbol "a"; AstBreak] ["a"; "(break)"]
  /\ renders (AstBody [AstSymbol "a"; AstBreak])
       ("(do" ++ nl ++ "  a" ++ nl ++ "  (break))").
Proof.
  assert (Hitems : Forall2 renders [AstSymbol "a"; AstBreak] ["a"; "(break)"]).
  { repeat constructor; intros h; reflexivity. }
  split; [exact Hitems |].
  exact (proj1 (visit_body_rule [AstSymbol "a"; AstBreak] ["a"; "(break)"] Hitems)).
Defined.

(** X22. A [let] whose sources and body render without touching the
    store: the bindings pair the targets with the sources in order, as
    many as the shorter list has, each source indented by six, one binding
    to a line, and the body follows indented by two. *)
Theorem visit_let_rule
    (targets : list target) (sources : list AstNode) (body : AstNode)
    (texts : list string) (b : string) :
  Forall2 renders sources texts -> renders body b ->
  renders (AstLet targets sources body)
    ("(let [" ++ join (nl ++ "      ") (map binding_text (combine targets texts))
     ++ "]" ++ nl ++ "  " ++ indented 2 b ++ ")").
Proof.
  intros Hsources Hbody h. simpl visit. unfold visit_let.
  unfold bind at 1. rewrite (for_each_zip_renders targets _ _ Hsources).
  unfold visit_indent, bind, ret. rewrite Hbody. reflexivity.
Qed.

Lemma visit_let_rule_witness :
  Forall2 renders [AstValue (PyInt 1); AstValue (PyInt 2)] ["1"; "2"]
  /\ renders (AstSymbol "x") "x"
  /\ renders (AstLet [NameStr "x"; NameStr "y"]
                [AstValue (PyInt 1); AstValue (PyInt 2)] (AstSymbol "x"))
       ("(let [x 1" ++ nl ++ "      y 2]" ++ nl ++ "  x)").
Proof.
  assert (Hs : Forall2 renders [AstValue (PyInt 1); AstValue (PyInt 2)] ["1"; "2"]).
  { repeat constructor; intros h; reflexivity. }
  assert (Hb : renders (AstSymbol "x") "x") by (intros h; reflexivity).
  split; [exact Hs | split; [exact Hb |]].
  exact (visit_let_rule [NameStr "x"; NameStr "y"]
           [AstValue (PyInt 1); AstValue (PyInt 2)] (AstSymbol "x")
           ["1"; "2"] "x" Hs Hb).
Defined.

(** X23. A slice with neither bound renders as the "drop" form of the
    amount [None]; and the "rest" form is chosen by the lower bound being
    the integer literal 1, only when there is no upper bound: with one the
    slice is a "subvec" from 1. *)
Theorem visit_slice_edges (base stop : AstNode) (sequence e : string) :
  renders base sequence -> renders stop e ->
  renders (AstSlice base None None) ("(drop " ++ sequence ++ " None)")
  /\ renders (AstSlice base (Some (AstValue (PyInt 1))) None)
       ("(rest " ++ sequence ++ ")")
  /\ renders (AstSlice base (Some (AstValue (PyInt 1))) (Some stop))
       ("(subvec " ++ sequence ++ " 1 " ++ e ++ ")").
Proof.
  intros Hbase Hstop. repeat split; intros h; simpl visit;
    unfold visit_slice, visit_optional, bind, ret; rewrite Hbase;
    simpl; try rewrite Hstop; reflexivity.
Qed.

Lemma visit_slice_edges_witness :
  renders (AstSymbol "seq") "seq" /\ renders (AstSymbol "n") "n"
  /\ renders (AstSlice (AstSymbol "seq") None None) "(drop seq None)".
Proof.
  assert (Hb : renders (AstSymbol "seq") "seq") by (intros h; reflexivity).
  assert (Hn : renders (AstSymbol "n") "n") by (intros h; reflexivity).
  split; [exact Hb | split; [exact Hn |]].
  exact (proj1 (visit_slice_edges (AstSymbol "seq") (AstSymbol "n") "seq" "n" Hb Hn)).
Defined.

(* ===================================================================== *)
(** ** Further properties: transformations *)
(* ===================================================================== *)

Lemma distributions_transforms_resolve : transforms_resolve distributions = true.
Proof. vm_compute. reflexivity. Qed.

(** X24. In every iteration order: a descriptor of the catalogue that
    names a transformed distribution has the transform flag, and looking
    that name up returns a descriptor of that canonical name that has the
    flag too. *)
Theorem transformed_distribution_resolves
    (ds : list Distribution) (d : Distribution) (t : string) :
  Permutation distributions ds -> In d ds ->
  snd (get_transformations d) = Some t ->
  has_transform_flag d = true
  /\ exists d', get_distribution_for_name_in ds t = Some d'
                /\ name d' = t /\ has_transform_flag d' = true.
Proof.
  intros Hperm Hd Ht. unfold get_transformations in Ht. simpl in Ht.
  assert (Hback : forall x, In x ds -> In x distributions)
    by (intros x; apply Permutation_in; now apply Permutation_sym).
  pose proof distributions_transforms_resolve as H.
  unfold transforms_resolve in H. rewrite forallb_forall in H.
  specialize (H d (Hback d Hd)). rewrite Ht in H.
  apply andb_true_iff in H as [Hex Hflag]. split; [exact Hflag |].
  apply existsb_exists in Hex as [d' [Hd' Hd'']].
  apply andb_true_iff in Hd'' as [Hname Hflag'].
  apply String.eqb_eq in Hname. exists d'. split; [| auto].
  assert (Hans : answers_to t d' = true).
  { unfold answers_to. rewrite <- Hname, String.eqb_refl. reflexivity. }
  apply lookup_only_match; [now apply (Permutation_in _ Hperm) | exact Hans |].
  intros x Hx Hx'.
  apply (one_answer_spec distributions distributions_one_answer t d' x); auto.
Qed.

Lemma transformed_distribution_resolves_witness :
  Permutation distributions (rev distributions)
  /\ In (nth 8 distributions LogGamma) (rev distributions)
  /\ snd (get_transformations (nth 8 distributions LogGamma)) = Some "LogGamma"
  /\ exists d', get_distribution_for_name_in (rev distributions) "LogGamma" = Some d'
                /\ name d' = "LogGamma" /\ has_transform_flag d' = true.
Proof.
  assert (Hperm : Permutation distributions (rev distributions))
    by apply Permutation_rev.
  assert (Hin : In (nth 8 distributions LogGamma) (rev distributions))
    by (simpl; tauto).
  split; [exact Hperm | split; [exact Hin | split; [reflexivity |]]].
  exact (proj2 (transformed_distribution_resolves (rev distributions)
                  (nth 8 distributions LogGamma) "LogGamma" Hperm Hin eq_refl)).
Defined.
